(** * Audio diarization worker ([worker/main.py]): model and properties

  A shallow embedding of the diarization pipeline of [worker/main.py]:
  the voice-activity segmenter, the embedding extractor, the speaker
  clusterer, the confidence estimator and the request handler that
  sequences them, together with the temporary files the handler creates
  and removes.

  Conventions.
  - Python [int] is [Z]; list positions and lengths are [nat].
  - Python [float] arithmetic is behind the interface [PyFloat].  The
    properties are proved for the exact instance over [Q]; the instance
    over binary64 ([PrimFloat]) runs the very same segmenter on concrete
    inputs, so that the concrete scenarios are also checked with the
    rounding the interpreter performs.
  - Where a float is turned into an integer (a sample index, a 16-bit
    sample) the rounding decides the result, and the model rounds as the
    code does: a time or a sample is the rational number it stands for,
    and [fl] rounds a rational to the nearest float of a format, ties to
    even.
  - The libraries the worker calls (requests, ffmpeg, librosa, webrtcvad,
    resemblyzer, numpy, scikit-learn) are the fields of the record
    [World]; a call that raises is a field returning [None].
  - Exceptions and the file system are threaded by the monad [M]. *)

From Stdlib Require Import ZArith QArith Lia Lqa Sorted Floats Uint63 Ascii.
From stdpp Require Import base option list sorting strings gmap pretty.

Set Default Proof Using "Type".
Local Open Scope Z_scope.

(** ** Python numbers *)

(** The float operations the segmenter performs. *)
Class PyFloat (F : Type) := {
  (** [a / b] on two [int]s: true division. *)
  true_div : Z -> Z -> F;
  (** [x - y] on two floats. *)
  fsub : F -> F -> F;
  (** [x >= y] on two floats. *)
  fge : F -> F -> bool;
  (** the literal [0.25]. *)
  min_duration : F;
}.

(** Exact arithmetic: every value is kept as a reduced fraction, so equal
    numbers are equal terms. *)
#[export] Instance Q_float : PyFloat Q := {|
  true_div a b := Qred (inject_Z a / inject_Z b);
  fsub x y := Qred (x - y);
  fge x y := Qle_bool y x;
  min_duration := (1 # 4)%Q;
|}.

(** IEEE binary64, as in the interpreter.  [float_of_int] is the correctly
    rounded conversion for magnitudes below [2^63]; the quotient of two
    converted integers is the correctly rounded quotient of the integers
    whenever both are below [2^53], which covers every frame index of a
    recording shorter than two hundred thousand years. *)
Definition float_of_int (a : Z) : float :=
  if a <? 0 then PrimFloat.opp (PrimFloat.of_uint63 (Uint63.of_Z (- a)))
  else PrimFloat.of_uint63 (Uint63.of_Z a).

#[export] Instance binary64_float : PyFloat float := {|
  true_div a b := PrimFloat.div (float_of_int a) (float_of_int b);
  fsub x y := PrimFloat.sub x y;
  fge x y := PrimFloat.leb y x;
  min_duration := 0.25%float;
|}.

(** [int(x)] on a finite float: truncation toward zero. *)
Definition py_int (x : Q) : Z := Z.quot (Qnum x) (Z.pos (Qden x)).

(** The integer nearest to [n / d], for [0 <= n] and [0 < d]; of two equally
    near the even one. *)
Definition round_half_even (n d : Z) : Z :=
  let '(m, r) := Z.div_eucl n d in
  match 2 * r ?= d with
  | Lt => m
  | Eq => if Z.even m then m else m + 1
  | Gt => m + 1
  end.

(** [n / d] divided by [2 ^ e], as a numerator and a denominator
    ([Z.shiftl a k] is [a * 2 ^ k]). *)
Definition scaled (n d e : Z) : Z * Z :=
  if 0 <=? e then (n, Z.shiftl d e) else (Z.shiftl n (- e), d).

(** The float nearest to [x], ties to even, in the IEEE format with [prec]
    bits of precision whose infinity has exponent [emax] (24 and 128 for
    float32, 53 and 1024 for float64): [None] when [x] rounds to an
    infinity.  With [2 ^ e <= |x| < 2 ^ (e + 1)], the last place of the
    float has exponent [e - prec + 1], or the one of the subnormal numbers
    when that is larger. *)
Definition fl (prec emax : Z) (x : Q) : option Q :=
  let n := Z.abs (Qnum x) in
  let d := Z.pos (Qden x) in
  if n =? 0 then Some 0%Q
  else
    let e0 := Z.log2 n - Z.log2 d in
    let '(n0, d0) := scaled n d e0 in
    let e := if d0 <=? n0 then e0 else e0 - 1 in
    let last := Z.max (e - prec + 1) (3 - emax - prec) in
    let '(n1, d1) := scaled n d last in
    let m := round_half_even n1 d1 in
    let m := if Qnum x <? 0 then - m else m in
    if 0 <=? last
    then if Z.shiftl 1 emax <=? Z.shiftl (Z.abs m) last then None
         else Some (inject_Z (Z.shiftl m last))
    else Some (m # Z.to_pos (Z.shiftl 1 (- last)))%Q.

Definition fl32 : Q -> option Q := fl 24 128.
Definition fl64 : Q -> option Q := fl 53 1024.

(** [int(t * 16000)] for a float [t]: the product is rounded to a float
    before it is truncated; [None] is [int] raising on an infinity. *)
Definition sample_index (t : Q) : option Z :=
  t64 ← fl64 t;
  product ← fl64 (t64 * inject_Z 16000);
  Some (py_int product).

(** [l[a:b]] for a sequence [l] and two [int]s: a negative index counts from
    the end, and both are clamped to the sequence. *)
Definition slice_index (len i : Z) : Z :=
  if i <? 0 then Z.max 0 (i + len) else Z.min i len.

Definition py_slice {A} (l : list A) (a b : Z) : list A :=
  let len := Z.of_nat (length l) in
  let a' := slice_index len a in
  let b' := slice_index len b in
  take (Z.to_nat (b' - a')) (drop (Z.to_nat a') l).

(** [s.replace(old, new)] for a non-empty [old]: every non-overlapping
    occurrence, leftmost first.  [skip] counts the characters of a matched
    occurrence that are still to be dropped. *)
Fixpoint replace_from (old new : string) (skip : nat) (s : string) : string :=
  match s with
  | EmptyString => EmptyString
  | String c s' =>
      match skip with
      | S k => replace_from old new k s'
      | O =>
          if String.prefix old s
          then new +:+ replace_from old new (String.length old - 1) s'
          else String c (replace_from old new 0 s')
      end
  end.

Definition str_replace (s old new : string) : string := replace_from old new 0 s.

(** [first; first + 1; ...], [n] numbers. *)
Fixpoint count_from (first : Z) (n : nat) : list Z :=
  match n with
  | O => []
  | S n' => first :: count_from (first + 1) n'
  end.

(** ** The speech segmenter *)

Definition sr : Z := 16000.
Definition frame_duration : Z := 30.
Definition frame_size : nat := Z.to_nat (sr * frame_duration / 1000).

(** The frames: one slice per [i] of [range(0, len(y), frame_size)], kept
    when it is a full frame. *)
Definition frames_of (y_int16 : list Z) : list (list Z) :=
  let starts :=
    map (fun k => (k * frame_size)%nat)
        (seq 0 (Nat.div (length y_int16 + frame_size - 1) frame_size)) in
  filter (fun frame => length frame = frame_size)
         (map (fun i => take frame_size (drop i y_int16)) starts).

(** The indices of the frames classified as speech, counted from [i]. *)
Fixpoint speech_frames_from (i : Z) (is_speech : list bool) : list Z :=
  match is_speech with
  | [] => []
  | b :: rest =>
      if b then i :: speech_frames_from (i + 1) rest
      else speech_frames_from (i + 1) rest
  end.

Definition speech_frames_of (is_speech : list bool) : list Z :=
  speech_frames_from 0 is_speech.

Section Segmenter.
Context {F : Type} `{PyFloat F}.

(** The dict [{'start': ..., 'end': ...}]. *)
Record SpeechSegment := { seg_start : F; seg_end : F }.

(** The variables of the merging loop. *)
Record MergeState := {
  segments : list SpeechSegment;
  start_frame : Z;
  prev_frame : Z;
}.

(** The block that ends a candidate segment: it is appended when it lasts
    at least [0.25] seconds. *)
Definition close_segment (segs : list SpeechSegment) (start_fr prev_fr : Z)
  : list SpeechSegment :=
  let end_time := true_div ((prev_fr + 1) * frame_duration) 1000 in
  let start_time := true_div (start_fr * frame_duration) 1000 in
  if fge (fsub end_time start_time) min_duration
  then segs ++ [ {| seg_start := start_time; seg_end := end_time |} ]
  else segs.

(** One iteration of [for frame in speech_frames[1:]]. *)
Definition merge_step (st : MergeState) (frame : Z) : MergeState :=
  if frame - prev_frame st >? 1
  then {| segments := close_segment (segments st) (start_frame st) (prev_frame st);
          start_frame := frame;
          prev_frame := frame |}
  else {| segments := segments st;
          start_frame := start_frame st;
          prev_frame := frame |}.

Definition merge_speech_frames (speech_frames : list Z) : list SpeechSegment :=
  match speech_frames with
  | [] => []
  | first :: rest =>
      let st := fold_left merge_step rest
                  {| segments := []; start_frame := first; prev_frame := first |} in
      close_segment (segments st) (start_frame st) (prev_frame st)
  end.

(** The segments of a frame classification. *)
Definition segments_of (is_speech : list bool) : list SpeechSegment :=
  merge_speech_frames (speech_frames_of is_speech).
End Segmenter.

Arguments SpeechSegment F : clear implicits.
Arguments MergeState F : clear implicits.

(** ** Exceptions, temporary files and the handler monad *)

(** The exceptions the worker raises and catches: FastAPI's [HTTPException]
    and every other [Exception], which carries its message. *)
Inductive exn :=
  | HTTPException (status_code : Z) (detail : string)
  | Exception (msg : string).

(** The functions of the worker, for the record of which of them ran. *)
Inductive Stage :=
  | StDownload | StConvert | StDetect | StEmbed | StCluster | StConfidence.

(** What an invocation can change: the files on disk, by path; and, as a
    ghost record, the worker functions entered so far, oldest first. *)
Record State := {
  files : gmap string (list Z);
  calls : list Stage;
}.

(** A computation either raises or returns, and leaves a state behind in
    both cases. *)
Definition M (A : Type) : Type := State -> (exn + A) * State.

#[export] Instance M_ret : MRet M := fun A (x : A) st => (inr x, st).

#[export] Instance M_bind : MBind M := fun A B (f : A -> M B) (m : M A) st =>
  match m st with
  | (inl e, st') => (inl e, st')
  | (inr a, st') => f a st'
  end.

Definition raise {A} (e : exn) : M A := fun st => (inl e, st).

(** [try: body except Exception as e: handler(e)]. *)
Definition try_except {A} (body : M A) (handler : exn -> M A) : M A := fun st =>
  match body st with
  | (inl e, st') => handler e st'
  | (inr a, st') => (inr a, st')
  end.

(** A library call: [None] is the call raising. *)
Definition ext {A} (msg : string) (r : option A) : M A :=
  match r with
  | Some a => mret a
  | None => raise (Exception msg)
  end.

Definition enter (s : Stage) : M unit := fun st =>
  (inr (), {| files := files st; calls := calls st ++ [s] |}).

Definition get_files : M (gmap string (list Z)) := fun st => (inr (files st), st).

Definition read_file (path : string) : M (list Z) := fun st =>
  match files st !! path with
  | Some content => (inr content, st)
  | None => (inl (Exception "No such file or directory"), st)
  end.

Definition write_file (path : string) (content : list Z) : M unit := fun st =>
  (inr (), {| files := <[path := content]> (files st); calls := calls st |}).

(** [os.unlink(path)]: raises when there is no such file. *)
Definition unlink (path : string) : M unit := fun st =>
  match files st !! path with
  | Some _ => (inr (), {| files := delete path (files st); calls := calls st |})
  | None => (inl (Exception "No such file or directory"), st)
  end.

(** ** The libraries *)

(** A streamed HTTP response: the chunks [iter_content] yields, and whether
    the stream then ends normally or raises. *)
Record Response := { chunks : list (list Z); stream_ok : bool }.

Record World := {
  (** [requests.get(url, stream=True)] followed by [raise_for_status()]. *)
  requests_get : string -> option Response;
  (** the name [tempfile.NamedTemporaryFile(delete=False, suffix='.wav')]
      picks, given the files that exist. *)
  temp_name : gmap string (list Z) -> string;
  (** the ffmpeg subprocess on the content of its input file: the content
      of the output file, or [None] for a non-zero return code. *)
  ffmpeg : list Z -> option (list Z);
  (** [librosa.load(path, sr=16000)] on the content of the file: float32
      samples. *)
  librosa_load : list Z -> option (list Q);
  (** [astype(np.int16)] on a float32 value that does not fit 16 bits, or
      on an infinity ([None]): numpy leaves it to the C cast of the
      platform. *)
  astype_int16_overflow : option Q -> Z;
  (** [webrtcvad.Vad(2).is_speech(frame, 16000)]. *)
  vad_is_speech : list Z -> option bool;
  (** [preprocess_wav(path)] on the content of the file. *)
  preprocess_wav : list Z -> option (list Q);
  (** [VoiceEncoder()], and the [embed_utterance] of the encoder made. *)
  voice_encoder : option (list Q -> option (list Q));
  (** [np.array(embeddings)]. *)
  np_array : list (list Q) -> option (list (list Q));
  (** [AgglomerativeClustering(n_clusters=2, linkage='ward').fit_predict(X)]
      followed by [.tolist()]. *)
  fit_predict : list (list Q) -> option (list Z);
  (** [silhouette_score(X, labels)]. *)
  silhouette_score : list (list Q) -> list Z -> option Q;
  (** [str(e)] for an [HTTPException]. *)
  http_exception_str : Z -> string -> string;
}.

(** ** The worker *)

(** Sixteen bits read as a signed number. *)
Definition int16 (v : Z) : Z := (v + 32768) mod 65536 - 32768.

(** [y * 32767] on one float32 sample: a float32 again, [None] for an
    infinity. *)
Definition scaled_sample (y : Q) : option Q :=
  y32 ← fl32 y;
  fl32 (y32 * inject_Z 32767).

(** [(y * 32767).astype(np.int16)] on one float32 sample: the product is
    truncated toward zero when the result fits 16 bits. *)
Definition to_int16 (w : World) (y : Q) : Z :=
  match scaled_sample y with
  | Some product =>
      let v := py_int product in
      if bool_decide (-32768 <= v <= 32767) then v
      else int16 (astype_int16_overflow w (Some product))
  | None => int16 (astype_int16_overflow w None)
  end.

Record DiarizationRequest := {
  fileUrl : string;
  languageHint : option string;
}.

Record DiarizationSegment := {
  start : Q;
  end_ : Q;
  speaker : string;
  text : string;
}.

Inductive DebugValue := DebugStr (s : string) | DebugInt (n : Z).

Record DiarizationResponse := {
  diarizedSegments : list DiarizationSegment;
  speakerCount : Z;
  confidence : Q;
  debug : list (string * DebugValue);
}.

(** [max(0.0, score)]: the second argument only when it is greater. *)
Definition max_0 (score : Q) : Q := if Qle_bool score 0 then 0%Q else score.

(** [len(np.unique(labels))] and [len(set(labels))]. *)
Definition count_distinct (labels : list Z) : nat := length (remove_dups labels).

Section Worker.
Context (w : World).

Definition str_exn (e : exn) : string :=
  match e with
  | HTTPException status_code detail => http_exception_str w status_code detail
  | Exception msg => msg
  end.

Definition download_audio (url : string) : M string :=
  enter StDownload ;;
  try_except
    (response ← ext "download" (requests_get w url);
     existing ← get_files;
     let temp_path := temp_name w existing in
     write_file temp_path [] ;;
     write_file temp_path (concat (chunks response)) ;;
     (if stream_ok response then mret () else raise (Exception "stream")) ;;
     mret temp_path)
    (fun _ => raise (HTTPException 400 "Failed to download audio file")).

Definition convert_to_wav (input_path : string) : M string :=
  enter StConvert ;;
  try_except
    (let output_path := str_replace input_path ".wav" "_converted.wav" in
     existing ← get_files;
     match existing !! input_path ≫= ffmpeg w with
     | Some converted => write_file output_path converted ;; mret output_path
     | None => raise (Exception "Audio conversion failed")
     end)
    (fun _ => raise (HTTPException 500 "Audio conversion failed")).

Definition detect_speech_segments (audio_path : string) : M (list (SpeechSegment Q)) :=
  enter StDetect ;;
  try_except
    (content ← read_file audio_path;
     y ← ext "librosa" (librosa_load w content);
     let y_int16 := map (to_int16 w) y in
     let frames := frames_of y_int16 in
     is_speech ← ext "vad" (mapM (vad_is_speech w) frames);
     mret (segments_of is_speech))
    (fun _ => raise (HTTPException 500 "Speech detection failed")).

(** The body of the loop of [extract_embeddings]. *)
Definition embed_segment (embed_utterance : list Q -> option (list Q))
    (wav : list Q) (segment : SpeechSegment Q) : option (list Q) :=
  start_sample ← sample_index (seg_start segment);
  end_sample ← sample_index (seg_end segment);
  let segment_wav := py_slice wav start_sample end_sample in
  if bool_decide (0 < length segment_wav)%nat
  then embed_utterance segment_wav
  else Some (replicate 256 0%Q).

Definition extract_embeddings (audio_path : string)
    (segs : list (SpeechSegment Q)) : M (list (list Q)) :=
  enter StEmbed ;;
  try_except
    (content ← read_file audio_path;
     wav ← ext "preprocess_wav" (preprocess_wav w content);
     embed_utterance ← ext "VoiceEncoder" (voice_encoder w);
     ext "embed_utterance" (mapM (embed_segment embed_utterance wav) segs))
    (fun _ => raise (HTTPException 500 "Embedding extraction failed")).

Definition cluster_speakers (embeddings : list (list Q)) : M (list Z) :=
  enter StCluster ;;
  try_except
    (if bool_decide (length embeddings < 2)%nat
     then mret (replicate (length embeddings) 0)
     else
       X ← ext "np.array" (np_array w embeddings);
       ext "fit_predict" (fit_predict w X))
    (fun _ => raise (HTTPException 500 "Speaker clustering failed")).

Definition calculate_confidence (embeddings : list (list Q)) (labels : list Z) : M Q :=
  enter StConfidence ;;
  try_except
    (if bool_decide (length embeddings < 2)%nat
     then mret 0%Q
     else
       X ← ext "np.array" (np_array w embeddings);
       if bool_decide (1 < count_distinct labels)%nat
       then score ← ext "silhouette_score" (silhouette_score w X labels);
            mret (max_0 score)
       else mret 0%Q)
    (fun _ => mret 0%Q).

(** One iteration of the loop that builds the diarized segments. *)
Definition diarized_segment (speaker_labels : list Z) (i : nat)
    (segment : SpeechSegment Q) : DiarizationSegment :=
  let speaker_label :=
    if bool_decide (i < length speaker_labels)%nat
    then default 0 (speaker_labels !! i)
    else 0 in
  {| start := seg_start segment;
     end_ := seg_end segment;
     speaker := "Speaker " +:+ pretty (speaker_label + 1);
     text := "" |}.

Definition diarize_audio (request : DiarizationRequest) : M DiarizationResponse :=
  try_except
    (audio_path ← download_audio (fileUrl request);
     wav_path ← convert_to_wav audio_path;
     speech_segments ← detect_speech_segments wav_path;
     match speech_segments with
     | [] =>
         mret {| diarizedSegments := [];
                 speakerCount := 0;
                 confidence := 0%Q;
                 debug := [("message", DebugStr "No speech detected")] |}
     | _ :: _ =>
         embeddings ← extract_embeddings wav_path speech_segments;
         speaker_labels ← cluster_speakers embeddings;
         confidence ← calculate_confidence embeddings speaker_labels;
         let diarized_segments := imap (diarized_segment speaker_labels) speech_segments in
         try_except (unlink audio_path ;; unlink wav_path) (fun _ => mret ()) ;;
         mret {| diarizedSegments := diarized_segments;
                 speakerCount := Z.of_nat (count_distinct speaker_labels);
                 confidence := confidence;
                 debug := [("speech_segments_count",
                              DebugInt (Z.of_nat (length speech_segments)));
                           ("embeddings_count",
                              DebugInt (Z.of_nat (length embeddings)));
                           ("processing_time", DebugStr "mock")] |}
     end)
    (fun e => raise (HTTPException 500 (str_exn e))).
End Worker.

(** The state an invocation starts from: the files already on disk, and no
    worker function entered yet. *)
Definition initial_state (disk : gmap string (list Z)) : State :=
  {| files := disk; calls := [] |}.

(** ** Frame times, runs of frames, and the order of segments *)

(** The time, in seconds, at which frame [f] begins. *)
Definition frame_time (f : Z) : Q := true_div (f * frame_duration) 1000.

Definition segment_of_frames (first last : Z) : SpeechSegment Q :=
  {| seg_start := frame_time first; seg_end := frame_time (last + 1) |}.

(** [first; first + 1; ...], [n] frames. *)
Definition frame_run (first : Z) (n : nat) : list Z :=
  map (fun k => first + Z.of_nat k) (seq 0 n).

(** [s1] begins before [s2] and is over when [s2] begins. *)
Definition before (s1 s2 : SpeechSegment Q) : Prop :=
  (seg_start s1 < seg_start s2)%Q /\ (seg_end s1 <= seg_start s2)%Q.

Definition long_enough (s : SpeechSegment Q) : Prop :=
  (1 # 4 <= seg_end s - seg_start s)%Q.

(** What the merging loop maintains, for frames met in ascending order. *)
Record merge_inv (st : MergeState Q) : Prop := {
  inv_frames : start_frame st <= prev_frame st;
  inv_sorted : StronglySorted before (segments st);
  inv_long : Forall long_enough (segments st);
  inv_past :
    Forall (fun s => (seg_end s <= frame_time (start_frame st))%Q) (segments st);
}.

(** ** A scripted world, to run the worker on concrete recordings *)

(** One frame of samples at amplitude [b / 2]. *)
Definition tone (b : Z) : list Q := replicate frame_size (inject_Z b / 2)%Q.

(** 67 frames of speech, 33 of silence, 67 of speech. *)
Definition talk_frames : list bool :=
  replicate 67 true ++ replicate 33 false ++ replicate 67 true.

(** Frames 0 to 10 speech, frame 11 not, frames 12 to 20 speech. *)
Definition one_frame_gap : list bool :=
  replicate 11 true ++ [false] ++ replicate 9 true.

Definition encode_frames (is_speech : list bool) : list Z :=
  map (fun b : bool => if b then 1 else 0) is_speech.

(** The scripted encoder: 256 copies of the first sample it is given. *)
Definition studio_encoder (segment_wav : list Q) : option (list Q) :=
  Some (replicate 256 (default 0%Q (head segment_wav))).

(** A remote file holds one number per frame: 1 for a frame with a voice in
    it, 0 for a silent one.  The decoders expand each number to a frame of
    samples, the detector finds speech where the samples are not zero, the
    clusterer alternates between two speakers.  The four switches make the
    detector, the encoder, the clusterer or the silhouette score raise. *)
Definition studio (vad_ok encoder_ok clustering_ok silhouette_ok : bool) : World := {|
  requests_get url :=
    if bool_decide (url = "http://files/talk.mp3")
    then Some {| chunks := [encode_frames talk_frames]; stream_ok := true |}
    else if bool_decide (url = "http://files/gap.mp3")
    then Some {| chunks := [encode_frames one_frame_gap]; stream_ok := true |}
    else if bool_decide (url = "http://files/silence.mp3")
    then Some {| chunks := [replicate 20 0; replicate 20 0]; stream_ok := true |}
    else None;
  temp_name _ := "/tmp/tmpk3v9.wav";
  ffmpeg content := Some content;
  librosa_load content := Some (flat_map tone content);
  astype_int16_overflow _ := 0;
  vad_is_speech frame :=
    if vad_ok then Some (bool_decide (head frame ≠ Some 0)) else None;
  preprocess_wav content := Some (flat_map tone content);
  voice_encoder :=
    if encoder_ok then Some studio_encoder else None;
  np_array embeddings := Some embeddings;
  fit_predict X :=
    if clustering_ok
    then Some (imap (fun i _ => Z.of_nat (i mod 2)) X)
    else None;
  silhouette_score X labels := if silhouette_ok then Some (1 # 2)%Q else None;
  http_exception_str status_code detail := pretty status_code +:+ ": " +:+ detail;
|}.

Definition talk_request : DiarizationRequest :=
  {| fileUrl := "http://files/talk.mp3"; languageHint := None |}.

Definition gap_request : DiarizationRequest :=
  {| fileUrl := "http://files/gap.mp3"; languageHint := None |}.

Definition silence_request : DiarizationRequest :=
  {| fileUrl := "http://files/silence.mp3"; languageHint := None |}.

(** ** Results and states of the handler *)

(** The state a stage leaves: only the record of calls grows. *)
Definition entered (s : Stage) (st : State) : State :=
  {| files := files st; calls := calls st ++ [s] |}.

(** The slice [extract_embeddings] takes for a segment: [None] when one of
    its two sample indices cannot be computed. *)
Definition segment_samples (wav : list Q) (segment : SpeechSegment Q)
  : option (list Q) :=
  start_sample ← sample_index (seg_start segment);
  end_sample ← sample_index (seg_end segment);
  Some (py_slice wav start_sample end_sample).

(** [segment_wav] is [wav[a:b]], sample by sample: the slice begins at [a]
    and stops before [b], each of them counted from the end of the
    recording when it is negative, and brought into the recording when it
    lies past the end. *)
Definition samples_between (wav : list Q) (a b : Z) (segment_wav : list Q) : Prop :=
  let len := Z.of_nat (length wav) in
  let first := if a <? 0 then Z.max 0 (a + len) else Z.min a len in
  let stop := if b <? 0 then Z.max 0 (b + len) else Z.min b len in
  forall p : nat,
    segment_wav !! p =
      if bool_decide (first + Z.of_nat p < stop)
      then wav !! Z.to_nat (first + Z.of_nat p)
      else None.

(** The two results the handler builds. *)
Definition empty_response : DiarizationResponse :=
  {| diarizedSegments := [];
     speakerCount := 0;
     confidence := 0%Q;
     debug := [("message", DebugStr "No speech detected")] |}.

Definition full_response (speech_segments : list (SpeechSegment Q))
    (embeddings : list (list Q)) (speaker_labels : list Z) (conf : Q)
  : DiarizationResponse :=
  {| diarizedSegments := imap (diarized_segment speaker_labels) speech_segments;
     speakerCount := Z.of_nat (count_distinct speaker_labels);
     confidence := conf;
     debug := [("speech_segments_count", DebugInt (Z.of_nat (length speech_segments)));
               ("embeddings_count", DebugInt (Z.of_nat (length embeddings)));
               ("processing_time", DebugStr "mock")] |}.

(** The state after the clean-up block of the handler. *)
Definition cleaned_up (audio_path wav_path : string) (st : State) : State :=
  snd (try_except (unlink audio_path ;; unlink wav_path) (fun _ => mret ()) st).

(** ** Concrete inputs *)

Definition studio_ok : World := studio true true true true.

(** A disk that holds the converted recording with the one-frame gap. *)
Definition gap_disk : gmap string (list Z) :=
  {[ "/tmp/gap.wav" := encode_frames one_frame_gap ]}.

Definition gap_segments : list (SpeechSegment Q) :=
  [ {| seg_start := 0; seg_end := 33 # 100 |};
    {| seg_start := 9 # 25; seg_end := 63 # 100 |} ]%Q.

(** An encoder that reports what it was given: the number of samples, the
    first of them and the last, then zeros up to dimension 256. *)
Definition probe_encoder (segment_wav : list Q) : option (list Q) :=
  Some ([ inject_Z (Z.of_nat (length segment_wav));
          default 0%Q (head segment_wav);
          default 0%Q (last segment_wav) ] ++ replicate 253 0%Q).

(** An encoder that raises on a slice of a single sample. *)
Definition fussy_encoder (segment_wav : list Q) : option (list Q) :=
  if bool_decide (length segment_wav = 1%nat) then None
  else probe_encoder segment_wav.

(** A world in which a file holds the samples themselves, so that a slice
    shows where it was cut; the encoder is a parameter. *)
Definition lab (encoder : list Q -> option (list Q)) : World := {|
  requests_get url := None;
  temp_name _ := "/tmp/tmpq0c4.wav";
  ffmpeg content := Some content;
  librosa_load content := Some (map inject_Z content);
  astype_int16_overflow _ := 0;
  vad_is_speech frame := Some true;
  preprocess_wav content := Some (map inject_Z content);
  voice_encoder := Some encoder;
  np_array embeddings := Some embeddings;
  fit_predict X := Some (replicate (length X) 0);
  silhouette_score X labels := None;
  http_exception_str status_code detail := pretty status_code +:+ ": " +:+ detail;
|}.

(** A recording of [n] samples in which sample number [k] has the value
    [k]. *)
Definition ramp (n : Z) : list Z := count_from 0 (Z.to_nat n).

(** A disk with the ramp of 32160 samples, which is 2.01 s of audio. *)
Definition ramp_disk : gmap string (list Z) := {[ "/tmp/ramp.wav" := ramp 32160 ]}.

(** The segment of the frames 0 to 66, the segment of the frames 67 to 75,
    and a segment that lies far past the end of the ramp. *)
Definition boundary_segments : list (SpeechSegment Q) :=
  [ {| seg_start := 0; seg_end := 201 # 100 |};
    {| seg_start := 201 # 100; seg_end := 57 # 25 |};
    {| seg_start := 100; seg_end := 101 |} ]%Q.

Definition three_embeddings : list (list Q) := [[0]; [1]; [1 # 2]]%Q.

Definition studio_no_clustering : World := studio true true false true.

(** ** Runs of speech frames *)

(** Frame [f] exists and is classified as speech. *)
Definition speech_at (is_speech : list bool) (f : Z) : Prop :=
  0 <= f /\ is_speech !! Z.to_nat f = Some true.

(** The frames [first..last] all occur in [frames], and neither the frame
    before [first] nor the frame after [last] does. *)
Definition maximal_run (frames : list Z) (first last : Z) : Prop :=
  first <= last /\
  (forall f, first <= f <= last -> f ∈ frames) /\
  ((first - 1) ∉ frames) /\
  ((last + 1) ∉ frames).

(** What the merging loop maintains with respect to the whole list [frames]
    of speech frames, when [rest] is still to be visited: the candidate is
    the beginning of a run, and the segments are the long runs that ended
    before the candidate began. *)
Record runs_inv (frames rest : list Z) (st : MergeState Q) : Prop := {
  runs_rest_sorted : StronglySorted Z.lt (prev_frame st :: rest);
  runs_rest_in : Forall (fun f => f ∈ frames) rest;
  runs_visited : forall f, f ∈ frames -> f <= prev_frame st \/ f ∈ rest;
  runs_order : start_frame st <= prev_frame st;
  runs_candidate : forall f, start_frame st <= f <= prev_frame st -> f ∈ frames;
  runs_candidate_start : (start_frame st - 1) ∉ frames;
  runs_segments : forall seg,
    seg ∈ segments st <->
    exists first last,
      maximal_run frames first last /\ 9 <= last + 1 - first /\
      last < start_frame st /\ seg = segment_of_frames first last;
}.

(** The frames [first..last] are speech, and neither the frame before
    [first] nor the frame after [last] is. *)
Definition speech_run (is_speech : list bool) (first last : Z) : Prop :=
  first <= last /\
  (forall f, first <= f <= last -> speech_at is_speech f) /\
  ~ speech_at is_speech (first - 1) /\
  ~ speech_at is_speech (last + 1).

(** ** The order of the stages *)

(** The worker functions in the order the handler calls them. *)
Definition pipeline_order : list Stage :=
  [StDownload; StConvert; StDetect; StEmbed; StCluster; StConfidence].

(** The path [convert_to_wav] writes to. *)
Definition converted_path (input_path : string) : string :=
  str_replace input_path ".wav" "_converted.wav".

(** A disk with one file that has nothing to do with the worker. *)
Definition notes_disk : gmap string (list Z) := {[ "/srv/notes.txt" := [7; 7] ]}.

(** ** Paths *)

(** No character of [s] is a dot. *)
Fixpoint no_dot (s : string) : bool :=
  match s with
  | EmptyString => true
  | String c s' => negb (Ascii.eqb c "."%char) && no_dot s'
  end.


(** ** Responses *)


(** A world whose one recording is twelve frames of speech, and in which
    every call into numpy and scikit-learn raises. *)
Definition booth : World := {|
  requests_get url := Some {| chunks := [replicate 12 1]; stream_ok := true |};
  temp_name _ := "/tmp/tmpa7x2.wav";
  ffmpeg content := Some content;
  librosa_load content := Some (flat_map tone content);
  astype_int16_overflow _ := 0;
  vad_is_speech frame := Some (bool_decide (head frame ≠ Some 0));
  preprocess_wav content := Some (flat_map tone content);
  voice_encoder := Some studio_encoder;
  np_array embeddings := None;
  fit_predict X := None;
  silhouette_score X labels := None;
  http_exception_str status_code detail := pretty status_code +:+ ": " +:+ detail;
|}.

Definition booth_request : DiarizationRequest :=
  {| fileUrl := "http://files/booth.mp3"; languageHint := None |}.

(** A disk that holds a converted recording without a single sample. *)
Definition blank_disk : gmap string (list Z) := {[ "/tmp/blank.wav" := [] ]}.

(** The scripted world with a detector that raises on every frame. *)
Definition studio_no_vad : World := studio false true true true.

(** ** The floats of the Standard Library, to compare the rounding with *)

(** The quotient of two integers as [SpecFloat] rounds it. *)
Definition SF_of_Q (prec emax : Z) (x : Q) : spec_float :=
  match Qnum x with
  | Z0 => S754_zero false
  | Zpos n => SFdiv prec emax (S754_finite false n 0) (S754_finite false (Qden x) 0)
  | Zneg n => SFdiv prec emax (S754_finite true n 0) (S754_finite false (Qden x) 0)
  end.

(** The number a finite float stands for. *)
Definition SF_value (x : spec_float) : option Q :=
  match x with
  | S754_zero _ => Some 0%Q
  | S754_finite s m e =>
      let v := if 0 <=? e then inject_Z (Z.pos m * 2 ^ e)
               else (Z.pos m # Z.to_pos (2 ^ (- e)))%Q in
      Some (if s then (- v)%Q else v)
  | _ => None
  end.

Definition same_number (x y : option Q) : bool :=
  match x, y with
  | Some a, Some b => Qeq_bool a b
  | None, None => true
  | _, _ => false
  end.

(** Fractions around the places where rounding is delicate: ties, the
    carry into the next exponent, subnormal numbers, the largest finite
    numbers and the first that round to an infinity, in both formats. *)
Definition rounding_grid : list Q :=
  n ← [1; 3; 67; 201; 32769; 2^24 - 1; 2^24 + 1; 2^24 + 3; 2^25 + 1; 2^25 + 3;
       2^53 + 1; 2^53 + 3; 2^54 + 2; 2^128 - 1; 2^128 - 2^103; 2^128 - 2^104; 2^128;
       2^1024 - 2^970; 2^1024 - 2^971; 2^1024; 10^40];
  d ← [1; 3; 100; 1000; 32768; 2^24 + 1; 2^53 + 1; 2^126; 2^149; 2^150; 2^151;
       3 * 2^1070; 2^1074; 2^1075; 2^1076; 10^45; 10^320];
  [ (n # Z.to_pos d)%Q; (- n # Z.to_pos d)%Q ].

(** [int(x)] on a binary64 float, [None] for an infinity and for nan. *)
Definition float_int (x : float) : option Z :=
  match Prim2SF x with
  | S754_zero _ => Some 0
  | S754_finite s m e =>
      let v := if 0 <=? e then Z.pos m * 2 ^ e else Z.pos m / 2 ^ (- e) in
      Some (if s then - v else v)
  | _ => None
  end.

(** [int(t * 16000)] with the arithmetic of the machine. *)
Definition binary64_sample_index (t : float) : option Z :=
  float_int (PrimFloat.mul t (float_of_int 16000)).

(** ** 16-bit recordings *)

(** The values of a 16-bit sample. *)
Definition pcm16 : list Z := count_from (-32768) (Z.to_nat 65536).

(** On sample [k / 32768] the scaled sample truncates to [k * 32767 / 32768]
    truncated. *)
Definition pcm16_exact (k : Z) : bool :=
  match scaled_sample (k # 32768) with
  | Some product => bool_decide (py_int product = Z.quot (k * 32767) 32768)
  | None => false
  end.

(** * Properties *)

(** ** Frame times *)

Lemma frame_time_eq (f : Z) : (frame_time f == inject_Z f * (3 # 100))%Q.
Proof.
  unfold frame_time, frame_duration. cbn [true_div Q_float].
  rewrite Qred_correct.
  unfold Qeq, Qdiv, Qmult, Qinv, inject_Z. cbn. lia.
Qed.

Lemma frame_time_le (a b : Z) : a <= b -> (frame_time a <= frame_time b)%Q.
Proof.
  intros Hab. rewrite !frame_time_eq.
  unfold Qle, Qmult, inject_Z. cbn. lia.
Qed.

Lemma duration_eq (s p : Z) :
  (frame_time (p + 1) - frame_time s == inject_Z (p + 1 - s) * (3 # 100))%Q.
Proof.
  rewrite !frame_time_eq.
  unfold Qeq, Qminus, Qplus, Qopp, Qmult, inject_Z. cbn. lia.
Qed.

(** A candidate is kept exactly when it spans nine frames or more. *)
Lemma close_segment_frames (segs : list (SpeechSegment Q)) (s p : Z) :
  close_segment segs s p =
    if bool_decide (9 <= p + 1 - s)
    then segs ++ [segment_of_frames s p]
    else segs.
Proof.
  unfold close_segment, segment_of_frames.
  fold (frame_time (p + 1)). fold (frame_time s).
  cbn [fge fsub min_duration Q_float].
  destruct (Qle_bool (1 # 4) (Qred (frame_time (p + 1) - frame_time s))) eqn:Hd.
  - apply Qle_bool_iff in Hd. rewrite Qred_correct, duration_eq in Hd.
    rewrite bool_decide_eq_true_2; [done|].
    revert Hd. unfold Qle, Qmult, inject_Z. cbn. lia.
  - rewrite bool_decide_eq_false_2; [done|].
    intros Hk. apply not_true_iff_false in Hd. apply Hd.
    apply Qle_bool_iff. rewrite Qred_correct, duration_eq.
    unfold Qle, Qmult, inject_Z. cbn. lia.
Qed.

(** ** The merging loop, run by run *)

Lemma frame_run_S (i : Z) (n : nat) : frame_run i (S n) = i :: frame_run (i + 1) n.
Proof.
  unfold frame_run. cbn [seq map]. f_equal; [lia|].
  rewrite <- seq_shift, map_map. apply map_ext. intros k. lia.
Qed.

Lemma speech_frames_from_silence (a : nat) (i : Z) (rest : list bool) :
  speech_frames_from i (replicate a false ++ rest) =
  speech_frames_from (i + Z.of_nat a) rest.
Proof.
  revert i. induction a as [|a IH]; intros i; cbn.
  - f_equal. lia.
  - rewrite IH. f_equal. lia.
Qed.

Lemma speech_frames_from_speech (n : nat) (i : Z) (rest : list bool) :
  speech_frames_from i (replicate n true ++ rest) =
  frame_run i n ++ speech_frames_from (i + Z.of_nat n) rest.
Proof.
  revert i. induction n as [|n IH]; intros i.
  - cbn. f_equal. lia.
  - rewrite frame_run_S. cbn. rewrite IH. do 3 f_equal. lia.
Qed.

(** The shape of the loop does not depend on the float arithmetic. *)
Section MergeLoop.
Context {F : Type} `{PyFloat F}.

(** The loop over adjacent frames only moves [prev_frame]. *)
Lemma fold_merge_run (n : nat) (rest : list Z) (st : MergeState F) :
  fold_left merge_step (frame_run (prev_frame st + 1) n ++ rest) st =
  fold_left merge_step rest
    {| segments := segments st;
       start_frame := start_frame st;
       prev_frame := prev_frame st + Z.of_nat n |}.
Proof.
  revert st. induction n as [|n IH]; intros [segs s p]; cbn [prev_frame segments start_frame].
  - cbn. do 2 f_equal. lia.
  - rewrite frame_run_S. cbn [app fold_left]. unfold merge_step at 2.
    cbn [prev_frame segments start_frame].
    replace (p + 1 - p >? 1) with false by lia.
    pose proof (IH {| segments := segs; start_frame := s; prev_frame := p + 1 |}) as IH'.
    cbn [prev_frame segments start_frame] in IH'. rewrite IH'.
    do 2 f_equal. lia.
Qed.

(** A frame that does not directly follow the previous speech frame ends the
    candidate and starts the next one. *)
Lemma fold_merge_gap (frame : Z) (rest : list Z) (st : MergeState F) :
  1 < frame - prev_frame st ->
  fold_left merge_step (frame :: rest) st =
  fold_left merge_step rest
    {| segments := close_segment (segments st) (start_frame st) (prev_frame st);
       start_frame := frame;
       prev_frame := frame |}.
Proof.
  intros Hgap. cbn [fold_left]. unfold merge_step at 2.
  replace (frame - prev_frame st >? 1) with true by lia. done.
Qed.

(** One run of speech frames, silence around it. *)
Lemma segments_of_one_run (a n t : nat) :
  segments_of (replicate a false ++ replicate (S n) true ++ replicate t false) =
  close_segment [] (Z.of_nat a) (Z.of_nat a + Z.of_nat n).
Proof.
  unfold segments_of, speech_frames_of.
  rewrite speech_frames_from_silence, speech_frames_from_speech.
  rewrite <- (app_nil_r (replicate t false)), speech_frames_from_silence.
  cbn [speech_frames_from]. rewrite frame_run_S. cbn [app merge_speech_frames].
  rewrite Z.add_0_l.
  pose proof (fold_merge_run n []
    {| segments := []; start_frame := Z.of_nat a; prev_frame := Z.of_nat a |}) as Hrun.
  cbn [prev_frame segments start_frame] in Hrun. rewrite Hrun. done.
Qed.

(** Two runs of speech frames separated by [S g] non-speech frames. *)
Lemma segments_of_two_runs (a n1 g n2 t : nat) :
  let first2 := Z.of_nat a + Z.of_nat n1 + Z.of_nat g + 2 in
  segments_of (replicate a false ++ replicate (S n1) true ++
               replicate (S g) false ++ replicate (S n2) true ++
               replicate t false) =
  close_segment (close_segment [] (Z.of_nat a) (Z.of_nat a + Z.of_nat n1))
                first2 (first2 + Z.of_nat n2).
Proof.
  intros first2. unfold segments_of, speech_frames_of.
  rewrite speech_frames_from_silence, speech_frames_from_speech,
    speech_frames_from_silence, speech_frames_from_speech.
  rewrite <- (app_nil_r (replicate t false)), speech_frames_from_silence.
  cbn [speech_frames_from]. rewrite app_nil_r, Z.add_0_l.
  replace (Z.of_nat a + Z.of_nat (S n1) + Z.of_nat (S g)) with first2
    by (unfold first2; lia).
  rewrite !frame_run_S. cbn [app merge_speech_frames].
  pose proof (fold_merge_run n1 (first2 :: frame_run (first2 + 1) n2)
    {| segments := []; start_frame := Z.of_nat a; prev_frame := Z.of_nat a |}) as Hrun.
  cbn [prev_frame segments start_frame] in Hrun. rewrite Hrun. clear Hrun.
  rewrite fold_merge_gap by (cbn [prev_frame]; unfold first2; lia).
  cbn [prev_frame segments start_frame].
  pose proof (fold_merge_run n2 []
    {| segments := close_segment [] (Z.of_nat a) (Z.of_nat a + Z.of_nat n1);
       start_frame := first2; prev_frame := first2 |}) as Hrun.
  cbn [prev_frame segments start_frame] in Hrun.
  rewrite app_nil_r in Hrun. rewrite Hrun. done.
Qed.

End MergeLoop.

(** ** The invariant of the merging loop *)

Lemma segment_of_frames_long (s p : Z) :
  9 <= p + 1 - s -> long_enough (segment_of_frames s p).
Proof.
  intros Hk. unfold long_enough, segment_of_frames. cbn [seg_start seg_end].
  rewrite duration_eq. unfold Qle, Qmult, inject_Z. cbn. lia.
Qed.

(** Ending a candidate keeps the invariant, and every segment emitted so far
    is over by the time any later frame [next] begins. *)
Lemma close_segment_inv (st : MergeState Q) (next : Z) :
  merge_inv st -> prev_frame st + 1 <= next ->
  let segs := close_segment (segments st) (start_frame st) (prev_frame st) in
  StronglySorted before segs /\
  Forall long_enough segs /\
  Forall (fun s => (seg_end s <= frame_time next)%Q) segs.
Proof.
  intros [Hfr Hso Hlo Hpa] Hnext segs. subst segs.
  assert (Hold : Forall (fun s => (seg_end s <= frame_time next)%Q) (segments st)).
  { eapply Forall_impl; [exact Hpa|]. intros s Hs. cbn in Hs.
    eapply Qle_trans; [exact Hs|]. apply frame_time_le. lia. }
  rewrite close_segment_frames. case_bool_decide as Hk; [|done].
  pose proof (segment_of_frames_long _ _ Hk) as Hnew.
  split_and!.
  - apply StronglySorted_app. split_and!.
    + intros s1 s2 Hs1 Hs2. apply list_elem_of_singleton in Hs2 as ->.
      rewrite Forall_forall in Hpa, Hlo.
      specialize (Hpa _ Hs1). specialize (Hlo _ Hs1).
      unfold before, long_enough, segment_of_frames in *. cbn [seg_start seg_end] in *.
      split; lra.
    + exact Hso.
    + repeat constructor.
  - apply Forall_app. split; [exact Hlo|]. by constructor.
  - apply Forall_app. split; [exact Hold|]. constructor; [|constructor].
    cbn [segment_of_frames seg_end]. apply frame_time_le. lia.
Qed.

Lemma merge_step_inv (st : MergeState Q) (frame : Z) :
  merge_inv st -> prev_frame st < frame -> merge_inv (merge_step st frame).
Proof.
  intros Hinv Hlt. unfold merge_step.
  destruct (frame - prev_frame st >? 1) eqn:Hgap.
  - destruct (close_segment_inv st frame Hinv) as (Hso & Hlo & Hpa); [lia|].
    constructor; cbn [segments start_frame prev_frame]; [lia|done..].
  - destruct Hinv as [Hfr Hso Hlo Hpa].
    constructor; cbn [segments start_frame prev_frame]; [lia|done..].
Qed.

Lemma fold_merge_inv (frames : list Z) (st : MergeState Q) :
  merge_inv st -> StronglySorted Z.lt (prev_frame st :: frames) ->
  merge_inv (fold_left merge_step frames st).
Proof.
  revert st. induction frames as [|frame frames IH]; intros st Hinv Hsorted; [done|].
  apply StronglySorted_cons in Hsorted as [Hall Hsorted].
  apply Forall_cons in Hall as [Hlt Hall].
  cbn [fold_left]. apply IH.
  - by apply merge_step_inv.
  - unfold merge_step. by destruct (_ >? _).
Qed.

(** The speech frames are met in ascending order. *)
Lemma speech_frames_from_sorted (is_speech : list bool) (i : Z) :
  StronglySorted Z.lt (speech_frames_from i is_speech) /\
  Forall (fun f => i <= f) (speech_frames_from i is_speech).
Proof.
  revert i. induction is_speech as [|b rest IH]; intros i; cbn.
  - split; constructor.
  - destruct (IH (i + 1)) as [Hso Hge]. destruct b.
    + split.
      * constructor; [exact Hso|]. eapply Forall_impl; [exact Hge|]. cbn. lia.
      * constructor; [lia|]. eapply Forall_impl; [exact Hge|]. cbn. lia.
    + split; [exact Hso|]. eapply Forall_impl; [exact Hge|]. cbn. lia.
Qed.

Lemma merge_speech_frames_inv (speech_frames : list Z) :
  StronglySorted Z.lt speech_frames ->
  StronglySorted before (merge_speech_frames speech_frames) /\
  Forall long_enough (merge_speech_frames speech_frames).
Proof.
  intros Hsorted. destruct speech_frames as [|first rest]; cbn [merge_speech_frames].
  - split; constructor.
  - set (st0 := {| segments := []; start_frame := first; prev_frame := first |}).
    assert (Hinv : merge_inv (fold_left merge_step rest st0)).
    { apply fold_merge_inv; [|exact Hsorted].
      constructor; cbn; [lia|constructor..]. }
    destruct (close_segment_inv _ (prev_frame (fold_left merge_step rest st0) + 1) Hinv)
      as (Hso & Hlo & _); [lia|]. done.
Qed.

(** ** The stages, as equations *)

Ltac unfold_monad :=
  cbv [try_except mbind M_bind mret M_ret raise ext enter read_file write_file
       get_files entered] in *;
  cbn [fst snd files calls] in *.

Lemma detect_speech_segments_eq (w : World) (audio_path : string) (st : State) :
  detect_speech_segments w audio_path st =
  (match files st !! audio_path with
   | Some content =>
       match librosa_load w content with
       | Some y =>
           match mapM (vad_is_speech w) (frames_of (map (to_int16 w) y)) with
           | Some is_speech => inr (segments_of is_speech)
           | None => inl (HTTPException 500 "Speech detection failed")
           end
       | None => inl (HTTPException 500 "Speech detection failed")
       end
   | None => inl (HTTPException 500 "Speech detection failed")
   end, entered StDetect st).
Proof.
  unfold detect_speech_segments. unfold_monad.
  destruct (files st !! audio_path) as [content|]; [|done].
  destruct (librosa_load w content) as [y|]; [|done].
  by destruct (mapM _ _).
Qed.

Lemma extract_embeddings_eq (w : World) (audio_path : string)
    (segs : list (SpeechSegment Q)) (st : State) :
  extract_embeddings w audio_path segs st =
  (match files st !! audio_path with
   | Some content =>
       match preprocess_wav w content with
       | Some wav =>
           match voice_encoder w with
           | Some embed_utterance =>
               match mapM (embed_segment embed_utterance wav) segs with
               | Some embeddings => inr embeddings
               | None => inl (HTTPException 500 "Embedding extraction failed")
               end
           | None => inl (HTTPException 500 "Embedding extraction failed")
           end
       | None => inl (HTTPException 500 "Embedding extraction failed")
       end
   | None => inl (HTTPException 500 "Embedding extraction failed")
   end, entered StEmbed st).
Proof.
  unfold extract_embeddings. unfold_monad.
  destruct (files st !! audio_path) as [content|]; [|done].
  destruct (preprocess_wav w content) as [wav|]; [|done].
  destruct (voice_encoder w) as [embed_utterance|]; [|done].
  by destruct (mapM _ _).
Qed.

Lemma cluster_speakers_eq (w : World) (embeddings : list (list Q)) (st : State) :
  cluster_speakers w embeddings st =
  (if bool_decide (length embeddings < 2)%nat
   then inr (replicate (length embeddings) 0)
   else match np_array w embeddings with
        | Some X =>
            match fit_predict w X with
            | Some labels => inr labels
            | None => inl (HTTPException 500 "Speaker clustering failed")
            end
        | None => inl (HTTPException 500 "Speaker clustering failed")
        end, entered StCluster st).
Proof.
  unfold cluster_speakers. unfold_monad.
  case_bool_decide; [done|].
  destruct (np_array w embeddings) as [X|]; [|done].
  by destruct (fit_predict w X).
Qed.

Lemma calculate_confidence_eq (w : World) (embeddings : list (list Q))
    (labels : list Z) (st : State) :
  calculate_confidence w embeddings labels st =
  (inr (if bool_decide (length embeddings < 2)%nat then 0%Q
        else match np_array w embeddings with
             | Some X =>
                 if bool_decide (1 < count_distinct labels)%nat
                 then match silhouette_score w X labels with
                      | Some score => max_0 score
                      | None => 0%Q
                      end
                 else 0%Q
             | None => 0%Q
             end), entered StConfidence st).
Proof.
  unfold calculate_confidence. unfold_monad.
  case_bool_decide; [done|].
  destruct (np_array w embeddings) as [X|]; [|done].
  case_bool_decide; [|done].
  by destruct (silhouette_score w X labels).
Qed.

(** The clean-up block never raises. *)
Lemma cleanup_returns (audio_path wav_path : string) (st : State) :
  try_except (unlink audio_path ;; unlink wav_path) (fun _ => mret ()) st =
  (inr (), cleaned_up audio_path wav_path st).
Proof.
  unfold cleaned_up, try_except.
  by destruct ((unlink audio_path ;; unlink wav_path) st) as [[e|[]] s].
Qed.

(** The handler, stage by stage. *)
Lemma diarize_audio_eq (w : World) (request : DiarizationRequest) (st : State) :
  diarize_audio w request st =
  match download_audio w (fileUrl request) st with
  | (inl e, s1) => (inl (HTTPException 500 (str_exn w e)), s1)
  | (inr audio_path, s1) =>
  match convert_to_wav w audio_path s1 with
  | (inl e, s2) => (inl (HTTPException 500 (str_exn w e)), s2)
  | (inr wav_path, s2) =>
  match detect_speech_segments w wav_path s2 with
  | (inl e, s3) => (inl (HTTPException 500 (str_exn w e)), s3)
  | (inr [], s3) => (inr empty_response, s3)
  | (inr (seg :: segs), s3) =>
  match extract_embeddings w wav_path (seg :: segs) s3 with
  | (inl e, s4) => (inl (HTTPException 500 (str_exn w e)), s4)
  | (inr embeddings, s4) =>
  match cluster_speakers w embeddings s4 with
  | (inl e, s5) => (inl (HTTPException 500 (str_exn w e)), s5)
  | (inr speaker_labels, s5) =>
  match calculate_confidence w embeddings speaker_labels s5 with
  | (inl e, s6) => (inl (HTTPException 500 (str_exn w e)), s6)
  | (inr conf, s6) =>
      (inr (full_response (seg :: segs) embeddings speaker_labels conf),
       cleaned_up audio_path wav_path s6)
  end end end end end end.
Proof.
  unfold diarize_audio, try_except at 1, mbind, M_bind.
  destruct (download_audio _ _ _) as [[e|audio_path] s1]; [done|].
  destruct (convert_to_wav _ _ _) as [[e|wav_path] s2]; [done|].
  destruct (detect_speech_segments _ _ _) as [[e|[|seg segs]] s3]; [done..|].
  destruct (extract_embeddings _ _ _ _) as [[e|embeddings] s4]; [done|].
  destruct (cluster_speakers _ _ _) as [[e|speaker_labels] s5]; [done|].
  destruct (calculate_confidence _ _ _ _) as [[e|conf] s6]; [done|].
  pose proof (cleanup_returns audio_path wav_path s6) as Hclean.
  unfold mbind, M_bind in Hclean. by rewrite Hclean.
Qed.

Lemma download_audio_eq (w : World) (url : string) (st : State) :
  download_audio w url st =
  match requests_get w url with
  | None => (inl (HTTPException 400 "Failed to download audio file"),
             entered StDownload st)
  | Some response =>
      let temp_path := temp_name w (files st) in
      let st' :=
        {| files := <[temp_path := concat (chunks response)]>
                      (<[temp_path := []]> (files st));
           calls := calls st ++ [StDownload] |} in
      if stream_ok response then (inr temp_path, st')
      else (inl (HTTPException 400 "Failed to download audio file"), st')
  end.
Proof.
  unfold download_audio. unfold_monad.
  destruct (requests_get w url) as [response|]; [|done].
  by destruct (stream_ok response).
Qed.

Lemma convert_to_wav_eq (w : World) (input_path : string) (st : State) :
  convert_to_wav w input_path st =
  let output_path := str_replace input_path ".wav" "_converted.wav" in
  match files st !! input_path ≫= ffmpeg w with
  | Some converted =>
      (inr output_path,
       {| files := <[output_path := converted]> (files st);
          calls := calls st ++ [StConvert] |})
  | None => (inl (HTTPException 500 "Audio conversion failed"),
             entered StConvert st)
  end.
Proof.
  unfold convert_to_wav. unfold_monad.
  destruct (files st !! input_path) as [content|]; cbn; [|done].
  by destruct (ffmpeg w content).
Qed.

Lemma download_audio_calls (w : World) (url : string) (st st' : State) r :
  download_audio w url st = (r, st') -> calls st' = calls st ++ [StDownload].
Proof.
  rewrite download_audio_eq.
  destruct (requests_get w url) as [response|]; cbn zeta.
  - destruct (stream_ok response); by intros [= <- <-].
  - by intros [= <- <-].
Qed.

Lemma convert_to_wav_calls (w : World) (path : string) (st st' : State) r :
  convert_to_wav w path st = (r, st') -> calls st' = calls st ++ [StConvert].
Proof.
  rewrite convert_to_wav_eq. cbn zeta.
  destruct (files st !! path ≫= ffmpeg w); by intros [= <- <-].
Qed.

(** No speech frame, no segment: whatever the float arithmetic. *)
Lemma speech_frames_from_all_false (is_speech : list bool) (i : Z) :
  Forall (fun b => b = false) is_speech -> speech_frames_from i is_speech = [].
Proof.
  intros Hall. revert i. induction Hall as [|b rest -> _ IH]; intros i; [done|].
  cbn. apply IH.
Qed.

Lemma count_distinct_le_1 (labels : list Z) :
  (count_distinct labels <= 1)%nat <->
  (forall a b, a ∈ labels -> b ∈ labels -> a = b).
Proof.
  unfold count_distinct.
  pose proof (NoDup_remove_dups labels) as Hnd.
  pose proof (elem_of_remove_dups labels) as Hel.
  destruct (remove_dups labels) as [|x [|y rest]]; cbn.
  - split; [|lia]. intros _ a b Ha _.
    pose proof (proj2 (Hel a) Ha) as Ha'. by apply elem_of_nil in Ha'.
  - split; [|lia]. intros _ a b Ha Hb.
    pose proof (proj2 (Hel a) Ha) as Ha'. pose proof (proj2 (Hel b) Hb) as Hb'.
    apply list_elem_of_singleton in Ha'. apply list_elem_of_singleton in Hb'.
    congruence.
  - split; [lia|]. intros Hsame. exfalso.
    assert (x = y) as ->.
    { apply Hsame; apply (proj1 (Hel _)); repeat constructor. }
    apply NoDup_cons in Hnd as [Hnotin _]. apply Hnotin. constructor.
Qed.

Lemma max_0_spec (score : Q) :
  (0 <= max_0 score)%Q /\
  ((score <= 0)%Q -> max_0 score = 0%Q) /\
  ((0 < score)%Q -> max_0 score = score).
Proof.
  unfold max_0. destruct (Qle_bool score 0) eqn:Hle.
  - apply Qle_bool_iff in Hle. split_and!; [lra|done|lra].
  - assert (~ (score <= 0)%Q) as Hgt.
    { intros Hle'. apply Qle_bool_iff in Hle'. congruence. }
    split_and!; [lra|intros; contradiction|done].
Qed.

(** ** The claims about the segmenter *)

Set Warnings "-inexact-float".

(** C1, as the specification states it, fails on its own example: speech at
    frames 0 to 10, no speech at frame 11, speech at frames 12 to 20 gives two
    segments, [0, 0.33] and [0.36, 0.63], and not a single merged one; the
    binary64 run splits the recording in the same way. *)
Lemma single_frame_gap_splits_run :
  segments_of (F:=Q) one_frame_gap =
    [ {| seg_start := 0; seg_end := 33 # 100 |};
      {| seg_start := 9 # 25; seg_end := 63 # 100 |} ]%Q /\
  segments_of (F:=float) one_frame_gap =
    [ {| seg_start := 0; seg_end := 0.33 |};
      {| seg_start := 0.36; seg_end := 0.63 |} ]%float /\
  ~ (exists merged : SpeechSegment Q, segments_of one_frame_gap = [merged]).
Proof.
  split_and!; [by vm_compute..|].
  intros [merged Hone]. vm_compute in Hone. discriminate Hone.
Qed.

(** C1, amended: a single non-speech frame between two runs of speech frames
    does break the segment, because the loop only joins a frame to the one
    directly before it.  For [S n1] speech frames from frame [a], one frame
    without speech, then [S n2] speech frames, each run is a candidate of its
    own, emitted when it is nine frames (0.27 s) or longer: with both long
    enough the segmenter returns two segments, never a merged one. *)
Theorem single_frame_gap_breaks_segment (a n1 n2 t : nat) :
  segments_of (F:=Q)
    (replicate a false ++ replicate (S n1) true ++ [false] ++
     replicate (S n2) true ++ replicate t false) =
  (if bool_decide (9 <= S n1)%nat
   then [segment_of_frames (Z.of_nat a) (Z.of_nat a + Z.of_nat n1)] else []) ++
  (if bool_decide (9 <= S n2)%nat
   then [segment_of_frames (Z.of_nat a + Z.of_nat n1 + 2)
                           (Z.of_nat a + Z.of_nat n1 + 2 + Z.of_nat n2)] else []).
Proof.
  pose proof (segments_of_two_runs (F:=Q) a n1 0 n2 t) as Htwo.
  cbn zeta in Htwo. change (replicate 1 false) with [false] in Htwo.
  rewrite Htwo, !close_segment_frames, Z.add_0_r.
  repeat case_bool_decide; try lia; done.
Qed.

(** C6: for every frame classification the segments come out in ascending
    order of start time, each one over before any later one begins; and so
    does every list [detect_speech_segments] returns. *)
Theorem segments_sorted_nonoverlapping :
  (forall is_speech : list bool,
     StronglySorted before (segments_of is_speech)) /\
  (forall (w : World) (audio_path : string) (st st' : State) segs,
     detect_speech_segments w audio_path st = (inr segs, st') ->
     StronglySorted before segs).
Proof.
  assert (Hall : forall is_speech : list bool,
             StronglySorted before (segments_of is_speech)).
  { intros is_speech. apply merge_speech_frames_inv, speech_frames_from_sorted. }
  split; [exact Hall|].
  intros w audio_path st st' segs. rewrite detect_speech_segments_eq.
  intros [= Hsegs _]. repeat case_match; simplify_eq. apply Hall.
Qed.

(** C7: for every frame classification each segment lasts 0.25 s or more,
    also in every list [detect_speech_segments] returns; a shorter run of
    speech frames gives no segment and no error. *)
Theorem segments_min_duration :
  (forall is_speech : list bool,
     Forall long_enough (segments_of is_speech)) /\
  (forall (w : World) (audio_path : string) (st st' : State) segs,
     detect_speech_segments w audio_path st = (inr segs, st') ->
     Forall long_enough segs) /\
  (forall a n t : nat, (n <= 8)%nat ->
     segments_of (F:=Q)
       (replicate a false ++ replicate n true ++ replicate t false) = []).
Proof.
  assert (Hall : forall is_speech : list bool,
             Forall long_enough (segments_of is_speech)).
  { intros is_speech. apply merge_speech_frames_inv, speech_frames_from_sorted. }
  split_and!; [exact Hall| |].
  - intros w audio_path st st' segs. rewrite detect_speech_segments_eq.
    intros [= Hsegs _]. repeat case_match; simplify_eq. apply Hall.
  - intros a [|n] t Hn.
    + cbn [replicate app]. unfold segments_of, speech_frames_of.
      rewrite speech_frames_from_all_false; [done|].
      apply Forall_app. split; apply Forall_replicate; done.
    + rewrite segments_of_one_run, close_segment_frames.
      case_bool_decide; [lia|done].
Qed.

(** C8: speech at frames 0 to 66, none at 67 to 99, speech at 100 to 166
    gives the two segments [0, 2.01] and [3, 5.01], exactly and in binary64;
    a segment starts at [firstFrame * 0.03] and ends at
    [(lastFrame + 1) * 0.03]. *)
Theorem talk_scenario_two_segments :
  segments_of (F:=Q) talk_frames =
    [ {| seg_start := 0; seg_end := 201 # 100 |};
      {| seg_start := 3; seg_end := 501 # 100 |} ]%Q /\
  segments_of (F:=float) talk_frames =
    [ {| seg_start := 0; seg_end := 2.01 |};
      {| seg_start := 3; seg_end := 5.01 |} ]%float /\
  segments_of (F:=Q) talk_frames =
    [ segment_of_frames 0 66; segment_of_frames 100 166 ] /\
  (forall first last : Z,
     (seg_start (segment_of_frames first last) == inject_Z first * (3 # 100))%Q /\
     (seg_end (segment_of_frames first last) == inject_Z (last + 1) * (3 # 100))%Q).
Proof.
  split_and!; [by vm_compute..|].
  intros first last. cbn [segment_of_frames seg_start seg_end].
  split; apply frame_time_eq.
Qed.

(** ** The claims about the embeddings, the labels and the confidence *)

Lemma embed_segment_eq (embed_utterance : list Q -> option (list Q))
    (wav : list Q) (segment : SpeechSegment Q) :
  embed_segment embed_utterance wav segment =
  match segment_samples wav segment with
  | None => None
  | Some [] => Some (replicate 256 0%Q)
  | Some segment_wav => embed_utterance segment_wav
  end.
Proof.
  unfold embed_segment, segment_samples.
  destruct (sample_index (seg_start segment)) as [a|]; [|reflexivity].
  destruct (sample_index (seg_end segment)) as [b|]; [|reflexivity].
  cbn [mbind option_bind].
  destruct (py_slice wav a b) as [|x rest]; cbn [length].
  - by rewrite bool_decide_eq_false_2 by lia.
  - by rewrite bool_decide_eq_true_2 by lia.
Qed.

(** The slice the model takes is the slice of Python, sample by sample, and
    no other list is. *)
Lemma py_slice_samples_between (wav : list Q) (a b : Z) :
  samples_between wav a b (py_slice wav a b).
Proof.
  unfold samples_between, py_slice, slice_index. cbn zeta.
  set (len := Z.of_nat (length wav)).
  set (first := if a <? 0 then _ else _).
  set (stop := if b <? 0 then _ else _).
  assert (Hfirst : 0 <= first <= len) by (subst first; destruct (Z.ltb_spec a 0); lia).
  assert (Hstop : stop <= len) by (subst stop; destruct (Z.ltb_spec b 0); lia).
  intros p. case_bool_decide as Hp.
  - rewrite lookup_take_lt by lia. rewrite lookup_drop. f_equal. lia.
  - apply lookup_take_ge. lia.
Qed.

Lemma samples_between_py_slice (wav : list Q) (a b : Z) (segment_wav : list Q) :
  samples_between wav a b segment_wav -> segment_wav = py_slice wav a b.
Proof.
  intros Hslice. apply list_eq. intros p.
  rewrite (Hslice p). symmetry. apply py_slice_samples_between.
Qed.

Lemma segment_samples_Some (wav : list Q) (segment : SpeechSegment Q)
    (segment_wav : list Q) :
  segment_samples wav segment = Some segment_wav <->
  exists start_sample end_sample,
    sample_index (seg_start segment) = Some start_sample /\
    sample_index (seg_end segment) = Some end_sample /\
    samples_between wav start_sample end_sample segment_wav.
Proof.
  unfold segment_samples. split.
  - destruct (sample_index (seg_start segment)) as [a|]; [|done].
    destruct (sample_index (seg_end segment)) as [b|]; [|done].
    cbn [mbind option_bind]. intros Heq. apply (inj Some) in Heq. subst segment_wav.
    exists a, b. split_and!; [done|done|apply py_slice_samples_between].
  - intros (a & b & -> & -> & Hslice). cbn [mbind option_bind].
    by rewrite (samples_between_py_slice _ _ _ _ Hslice).
Qed.

(** C5: when the encoder gives vectors of dimension 256, the embeddings
    [extract_embeddings] returns are one per segment, in the order of the
    segments, each of dimension 256.  The slice of a segment runs from
    sample [int(start * 16000)] to sample [int(end * 16000)], both computed
    in binary64; its vector is the zero vector when the slice is empty and
    the encoder's vector for exactly that slice otherwise.  The function
    does return whenever the two sample indices of every segment are finite
    and the encoder does not raise on a non-empty slice. *)
Theorem extract_embeddings_one_per_segment (w : World) (audio_path : string)
    (segs : list (SpeechSegment Q)) (st : State)
    (content : list Z) (wav : list Q) (embed_utterance : list Q -> option (list Q)) :
  files st !! audio_path = Some content ->
  preprocess_wav w content = Some wav ->
  voice_encoder w = Some embed_utterance ->
  (forall x v, embed_utterance x = Some v -> length v = 256%nat) ->
  (forall embeddings st',
     extract_embeddings w audio_path segs st = (inr embeddings, st') ->
     length embeddings = length segs /\
     Forall (fun v => length v = 256%nat) embeddings /\
     (forall i segment, segs !! i = Some segment ->
        exists start_sample end_sample segment_wav v,
          sample_index (seg_start segment) = Some start_sample /\
          sample_index (seg_end segment) = Some end_sample /\
          samples_between wav start_sample end_sample segment_wav /\
          embeddings !! i = Some v /\
          (segment_wav = [] -> v = replicate 256 0%Q) /\
          (segment_wav <> [] -> embed_utterance segment_wav = Some v))) /\
  ((forall segment, segment ∈ segs ->
      exists start_sample end_sample,
        sample_index (seg_start segment) = Some start_sample /\
        sample_index (seg_end segment) = Some end_sample /\
        (forall segment_wav,
           samples_between wav start_sample end_sample segment_wav ->
           segment_wav <> [] -> is_Some (embed_utterance segment_wav))) ->
   exists embeddings,
     extract_embeddings w audio_path segs st = (inr embeddings, entered StEmbed st)).
Proof.
  intros Hfile Hwav Henc Hdim.
  rewrite extract_embeddings_eq, Hfile, Hwav, Henc. split.
  - intros embeddings st' Hret.
    destruct (mapM _ segs) as [embs|] eqn:Hmap; [|done].
    injection Hret as -> _. apply mapM_Some in Hmap.
    assert (Hone : forall segment v,
               embed_segment embed_utterance wav segment = Some v ->
               length v = 256%nat /\
               exists start_sample end_sample segment_wav,
                 sample_index (seg_start segment) = Some start_sample /\
                 sample_index (seg_end segment) = Some end_sample /\
                 samples_between wav start_sample end_sample segment_wav /\
                 (segment_wav = [] -> v = replicate 256 0%Q) /\
                 (segment_wav <> [] -> embed_utterance segment_wav = Some v)).
    { intros segment v. rewrite embed_segment_eq.
      destruct (segment_samples wav segment) as [segment_wav|] eqn:Hs; [|done].
      apply segment_samples_Some in Hs as (a & b & Ha & Hb & Hslice).
      destruct segment_wav as [|x rest].
      - intros Hv. apply (inj Some) in Hv. subst v.
        split; [by rewrite length_replicate|].
        exists a, b, []. by split_and!.
      - intros Hv. split; [by eapply Hdim|].
        exists a, b, (x :: rest). by split_and!. }
    split_and!.
    + symmetry. by eapply Forall2_length.
    + apply Forall_forall. intros v Hv.
      apply list_elem_of_lookup in Hv as [i Hi].
      destruct (Forall2_lookup_r _ _ _ _ _ Hmap Hi) as (segment & _ & Hsv).
      by apply (Hone _ _ Hsv).
    + intros i segment Hi.
      destruct (Forall2_lookup_l _ _ _ _ _ Hmap Hi) as (v & Hv & Hsv).
      destruct (Hone _ _ Hsv) as (_ & a & b & segment_wav & Ha & Hb & Hslice & Hzero & Hemb).
      exists a, b, segment_wav, v. by split_and!.
  - intros Htotal.
    destruct (mapM _ segs) as [embs|] eqn:Hmap; [by exists embs|].
    exfalso. apply mapM_None in Hmap. apply Exists_exists in Hmap as (segment & Hin & Hnone).
    rewrite embed_segment_eq in Hnone.
    destruct (Htotal segment Hin) as (a & b & Ha & Hb & Hok).
    destruct (segment_samples wav segment) as [segment_wav|] eqn:Hs.
    + pose proof (proj1 (segment_samples_Some _ _ _) Hs) as (a' & b' & Ha' & Hb' & Hslice).
      assert (a' = a) as -> by congruence. assert (b' = b) as -> by congruence.
      destruct segment_wav as [|x rest]; [done|].
      destruct (Hok _ Hslice) as [v Hv]; [done|]. congruence.
    + unfold segment_samples in Hs. rewrite Ha, Hb in Hs. done.
Qed.

(** C3: [calculate_confidence] always returns, never raises; given that the
    silhouette score of the library is at most 1, the value returned is in
    [0, 1]; it is 0 with fewer than two vectors and 0 when all labels are
    the same; otherwise it is the silhouette score, replaced by 0 when that
    score is negative. *)
Theorem confidence_in_unit_interval (w : World) (embeddings : list (list Q))
    (labels : list Z) (st : State) :
  (forall X l score, silhouette_score w X l = Some score -> (score <= 1)%Q) ->
  exists c,
    calculate_confidence w embeddings labels st = (inr c, entered StConfidence st) /\
    (0 <= c <= 1)%Q /\
    ((length embeddings < 2)%nat -> c = 0%Q) /\
    ((forall a b, a ∈ labels -> b ∈ labels -> a = b) -> c = 0%Q) /\
    (forall X score,
       (2 <= length embeddings)%nat ->
       ~ (forall a b, a ∈ labels -> b ∈ labels -> a = b) ->
       np_array w embeddings = Some X ->
       silhouette_score w X labels = Some score ->
       ((score <= 0)%Q -> c = 0%Q) /\ ((0 < score)%Q -> c = score)).
Proof.
  intros Hrange. rewrite calculate_confidence_eq. eexists. split; [done|].
  case_bool_decide as Hlen.
  { split_and!; [lra|lra|done|done|]. intros; lia. }
  destruct (np_array w embeddings) as [X|] eqn:HX.
  2: { split_and!; [lra|lra|done|done|]. intros; congruence. }
  case_bool_decide as Hdistinct.
  2: { split_and!; [lra|lra|done|done|].
       intros X' score _ Hnot. exfalso. apply Hnot.
       apply count_distinct_le_1. lia. }
  assert (Hnot : ~ (forall a b, a ∈ labels -> b ∈ labels -> a = b)).
  { intros Hsame. apply count_distinct_le_1 in Hsame. lia. }
  destruct (silhouette_score w X labels) as [score|] eqn:Hscore.
  - pose proof (max_0_spec score) as (Hnonneg & Hneg & Hpos).
    pose proof (Hrange _ _ _ Hscore) as Hle.
    split_and!.
    + done.
    + destruct (Qlt_le_dec 0 score) as [Hp|Hn].
      * by rewrite (Hpos Hp).
      * rewrite (Hneg Hn). lra.
    + intros; lia.
    + intros; contradiction.
    + intros X' score' _ _ [= <-] Hs. rewrite Hscore in Hs. by injection Hs as <-.
  - split_and!; [lra|lra|intros; lia|intros; contradiction|].
    intros X' score' _ _ [= <-] Hs. congruence.
Qed.

(** ** The claims about the handler *)

(** A response is returned only when every stage before it returned. *)
Lemma diarize_audio_inr (w : World) (request : DiarizationRequest)
    (st st' : State) (response : DiarizationResponse) :
  diarize_audio w request st = (inr response, st') ->
  exists audio_path s1 wav_path s2 segs s3,
    download_audio w (fileUrl request) st = (inr audio_path, s1) /\
    convert_to_wav w audio_path s1 = (inr wav_path, s2) /\
    detect_speech_segments w wav_path s2 = (inr segs, s3) /\
    ((segs = [] /\ response = empty_response /\ st' = s3) \/
     (segs <> [] /\
      exists embeddings s4 speaker_labels s5 conf s6,
        extract_embeddings w wav_path segs s3 = (inr embeddings, s4) /\
        cluster_speakers w embeddings s4 = (inr speaker_labels, s5) /\
        calculate_confidence w embeddings speaker_labels s5 = (inr conf, s6) /\
        response = full_response segs embeddings speaker_labels conf /\
        st' = cleaned_up audio_path wav_path s6)).
Proof.
  rewrite diarize_audio_eq.
  destruct (download_audio _ _ _) as [[e|audio_path] s1] eqn:Hdown; [done|].
  destruct (convert_to_wav _ _ _) as [[e|wav_path] s2] eqn:Hconv; [done|].
  destruct (detect_speech_segments _ _ _) as [[e|[|seg segs]] s3] eqn:Hdetect; [done|..].
  { intros [= <- <-]. exists audio_path, s1, wav_path, s2, [], s3.
    split_and!; [done..|]. by left. }
  destruct (extract_embeddings _ _ _ _) as [[e|embeddings] s4] eqn:Hembed; [done|].
  destruct (cluster_speakers _ _ _) as [[e|speaker_labels] s5] eqn:Hcluster; [done|].
  destruct (calculate_confidence _ _ _ _) as [[e|conf] s6] eqn:Hconf; [done|].
  intros [= <- <-]. exists audio_path, s1, wav_path, s2, (seg :: segs), s3.
  split_and!; [done..|]. right. split; [done|].
  by exists embeddings, s4, speaker_labels, s5, conf, s6.
Qed.

(** Every failure of the handler is one [HTTPException] with status 500. *)
Lemma diarize_audio_inl (w : World) (request : DiarizationRequest)
    (st st' : State) (e : exn) :
  diarize_audio w request st = (inl e, st') ->
  exists detail, e = HTTPException 500 detail.
Proof.
  rewrite diarize_audio_eq.
  repeat (case_match; try done); intros [= <- <-]; eauto.
Qed.

(** C4: a classification without a speech frame gives no segment; and when
    the recording that was downloaded and converted is classified so, the
    handler returns the empty result (no segment, speaker count 0,
    confidence 0.0) having entered [download_audio], [convert_to_wav] and
    [detect_speech_segments] only. *)
Theorem no_speech_short_circuits :
  (forall is_speech : list bool,
     Forall (fun b => b = false) is_speech ->
     segments_of (F:=Q) is_speech = []) /\
  (forall (w : World) (request : DiarizationRequest) (disk : gmap string (list Z))
          audio_path s1 wav_path s2 content y is_speech,
     download_audio w (fileUrl request) (initial_state disk) = (inr audio_path, s1) ->
     convert_to_wav w audio_path s1 = (inr wav_path, s2) ->
     files s2 !! wav_path = Some content ->
     librosa_load w content = Some y ->
     mapM (vad_is_speech w) (frames_of (map (to_int16 w) y)) = Some is_speech ->
     Forall (fun b => b = false) is_speech ->
     exists st',
       diarize_audio w request (initial_state disk) = (inr empty_response, st') /\
       diarizedSegments empty_response = [] /\
       speakerCount empty_response = 0 /\
       confidence empty_response = 0%Q /\
       calls st' = [StDownload; StConvert; StDetect]).
Proof.
  assert (Hsilent : forall is_speech : list bool,
             Forall (fun b => b = false) is_speech ->
             segments_of (F:=Q) is_speech = []).
  { intros is_speech Hall. unfold segments_of, speech_frames_of.
    by rewrite speech_frames_from_all_false. }
  split; [exact Hsilent|].
  intros w request disk audio_path s1 wav_path s2 content y is_speech
    Hdown Hconv Hfile Hload Hvad Hall.
  rewrite diarize_audio_eq, Hdown, Hconv, detect_speech_segments_eq,
    Hfile, Hload, Hvad, (Hsilent _ Hall).
  eexists. split_and!; [done..|].
  cbn [entered calls].
  rewrite (convert_to_wav_calls _ _ _ _ _ Hconv),
    (download_audio_calls _ _ _ _ _ Hdown). done.
Qed.

(** C10: given that [np.array] keeps one row per embedding and that
    [fit_predict] gives one label per row, [cluster_speakers] returns as many
    labels as it was given embeddings, in both of its branches; and in every
    response with segments, the segments, the embeddings and the labels are
    equally many, and the segment at each index carries the label the
    clusterer gave at that index, so that the guard [i < len(speaker_labels)]
    holds at every index. *)
Theorem labels_align_with_segments (w : World) :
  (forall embeddings X, np_array w embeddings = Some X -> length X = length embeddings) ->
  (forall X labels, fit_predict w X = Some labels -> length labels = length X) ->
  (forall embeddings st labels st',
     cluster_speakers w embeddings st = (inr labels, st') ->
     length labels = length embeddings /\
     ((length embeddings < 2)%nat -> labels = replicate (length embeddings) 0)) /\
  (forall request st response st',
     diarize_audio w request st = (inr response, st') ->
     diarizedSegments response <> [] ->
     exists wav_path s2 segs s3 embeddings s4 speaker_labels s5,
       detect_speech_segments w wav_path s2 = (inr segs, s3) /\
       extract_embeddings w wav_path segs s3 = (inr embeddings, s4) /\
       cluster_speakers w embeddings s4 = (inr speaker_labels, s5) /\
       length segs = length embeddings /\
       length embeddings = length speaker_labels /\
       length (diarizedSegments response) = length segs /\
       forall i segment, segs !! i = Some segment ->
         (i < length speaker_labels)%nat /\
         exists label,
           speaker_labels !! i = Some label /\
           diarizedSegments response !! i =
             Some {| start := seg_start segment;
                     end_ := seg_end segment;
                     speaker := "Speaker " +:+ pretty (label + 1);
                     text := "" |}).
Proof.
  intros Hrows Hlabels.
  assert (Hcluster : forall embeddings st labels st',
             cluster_speakers w embeddings st = (inr labels, st') ->
             length labels = length embeddings /\
             ((length embeddings < 2)%nat -> labels = replicate (length embeddings) 0)).
  { intros embeddings st labels st'. rewrite cluster_speakers_eq.
    case_bool_decide as Hlen.
    - intros [= <- _]. by rewrite length_replicate.
    - destruct (np_array w embeddings) as [X|] eqn:HX; [|done].
      destruct (fit_predict w X) as [ls|] eqn:Hfit; [|done].
      intros [= <- _]. split; [|lia].
      rewrite (Hlabels _ _ Hfit). by apply Hrows. }
  split; [exact Hcluster|].
  intros request st response st' Hret Hnonempty.
  apply diarize_audio_inr in Hret
    as (audio_path & s1 & wav_path & s2 & segs & s3 & _ & _ & Hdetect & Hcases).
  destruct Hcases as [(_ & -> & _)|(_ & Hfull)]; [done|].
  destruct Hfull as (embeddings & s4 & speaker_labels & s5 & conf & s6
                     & Hembed & Hclu & _ & -> & _).
  exists wav_path, s2, segs, s3, embeddings, s4, speaker_labels, s5.
  assert (Hlen1 : length segs = length embeddings).
  { revert Hembed. rewrite extract_embeddings_eq. intros [= Hembed _].
    repeat case_match; simplify_eq. by eapply length_mapM. }
  destruct (Hcluster _ _ _ _ Hclu) as [Hlen2 _].
  split_and!; [done..|by rewrite Hlen2|by cbn; rewrite length_imap|].
  intros i segment Hi.
  assert (Hlt : (i < length speaker_labels)%nat).
  { apply lookup_lt_Some in Hi. lia. }
  split; [exact Hlt|].
  destruct (lookup_lt_is_Some_2 speaker_labels i Hlt) as [label Hlabel].
  exists label. split; [exact Hlabel|].
  cbn [full_response diarizedSegments].
  rewrite list_lookup_imap, Hi. cbn. unfold diarized_segment.
  by rewrite bool_decide_eq_true_2, Hlabel by exact Hlt.
Qed.

(** C9: [calculate_confidence] never raises, and returns 0.0 when the array
    conversion or the silhouette score raises; a failure of
    [detect_speech_segments], [extract_embeddings] or [cluster_speakers]
    makes the handler raise one [HTTPException] with status 500 and the
    message of that failure; once these three have returned the handler
    returns a response whatever happens in the confidence computation; every
    failure of the handler is an [HTTPException] 500, and every response is
    either the empty one or built from the results of all the stages. *)
Theorem stage_failures_abort_confidence_failure_swallowed
    (w : World) (request : DiarizationRequest) (st : State) :
  (forall embeddings labels s,
     exists c,
       calculate_confidence w embeddings labels s = (inr c, entered StConfidence s)) /\
  (forall embeddings labels s,
     (2 <= length embeddings)%nat ->
     (np_array w embeddings = None \/
      exists X, np_array w embeddings = Some X /\
                (1 < count_distinct labels)%nat /\
                silhouette_score w X labels = None) ->
     calculate_confidence w embeddings labels s = (inr 0%Q, entered StConfidence s)) /\
  (forall audio_path s1 wav_path s2,
     download_audio w (fileUrl request) st = (inr audio_path, s1) ->
     convert_to_wav w audio_path s1 = (inr wav_path, s2) ->
     (forall e s3,
        detect_speech_segments w wav_path s2 = (inl e, s3) ->
        diarize_audio w request st = (inl (HTTPException 500 (str_exn w e)), s3)) /\
     (forall segs s3,
        detect_speech_segments w wav_path s2 = (inr segs, s3) -> segs <> [] ->
        (forall e s4,
           extract_embeddings w wav_path segs s3 = (inl e, s4) ->
           diarize_audio w request st = (inl (HTTPException 500 (str_exn w e)), s4)) /\
        (forall embeddings s4,
           extract_embeddings w wav_path segs s3 = (inr embeddings, s4) ->
           (forall e s5,
              cluster_speakers w embeddings s4 = (inl e, s5) ->
              diarize_audio w request st =
                (inl (HTTPException 500 (str_exn w e)), s5)) /\
           (forall speaker_labels s5,
              cluster_speakers w embeddings s4 = (inr speaker_labels, s5) ->
              exists conf,
                calculate_confidence w embeddings speaker_labels s5 =
                  (inr conf, entered StConfidence s5) /\
                diarize_audio w request st =
                  (inr (full_response segs embeddings speaker_labels conf),
                   cleaned_up audio_path wav_path (entered StConfidence s5)))))) /\
  (forall e st',
     diarize_audio w request st = (inl e, st') ->
     exists detail, e = HTTPException 500 detail) /\
  (forall response st',
     diarize_audio w request st = (inr response, st') ->
     exists audio_path s1 wav_path s2 segs s3,
       download_audio w (fileUrl request) st = (inr audio_path, s1) /\
       convert_to_wav w audio_path s1 = (inr wav_path, s2) /\
       detect_speech_segments w wav_path s2 = (inr segs, s3) /\
       ((segs = [] /\ response = empty_response /\ st' = s3) \/
        (segs <> [] /\
         exists embeddings s4 speaker_labels s5 conf s6,
           extract_embeddings w wav_path segs s3 = (inr embeddings, s4) /\
           cluster_speakers w embeddings s4 = (inr speaker_labels, s5) /\
           calculate_confidence w embeddings speaker_labels s5 = (inr conf, s6) /\
           response = full_response segs embeddings speaker_labels conf /\
           st' = cleaned_up audio_path wav_path s6))).
Proof.
  split_and!.
  - intros embeddings labels s. rewrite calculate_confidence_eq. by eexists.
  - intros embeddings labels s Hlen Hfail. rewrite calculate_confidence_eq.
    rewrite bool_decide_eq_false_2 by lia.
    destruct Hfail as [->|(X & -> & Hdistinct & ->)]; [done|].
    by rewrite bool_decide_eq_true_2.
  - intros audio_path s1 wav_path s2 Hdown Hconv. split.
    { intros e s3 Hdetect. by rewrite diarize_audio_eq, Hdown, Hconv, Hdetect. }
    intros [|seg segs] s3 Hdetect Hne; [done|]. split.
    { intros e s4 Hembed.
      by rewrite diarize_audio_eq, Hdown, Hconv, Hdetect, Hembed. }
    intros embeddings s4 Hembed. split.
    { intros e s5 Hcluster.
      by rewrite diarize_audio_eq, Hdown, Hconv, Hdetect, Hembed, Hcluster. }
    intros speaker_labels s5 Hcluster.
    rewrite diarize_audio_eq, Hdown, Hconv, Hdetect, Hembed, Hcluster.
    rewrite calculate_confidence_eq. by eexists.
  - intros e st'. apply diarize_audio_inl.
  - intros response st'. apply diarize_audio_inr.
Qed.

(** The whole worker on the recording of C8: two segments, two speakers. *)
Lemma diarize_talk_recording :
  fst (diarize_audio studio_ok talk_request (initial_state ∅)) =
  inr {| diarizedSegments :=
           [ {| start := 0; end_ := 201 # 100; speaker := "Speaker 1"; text := "" |};
             {| start := 3; end_ := 501 # 100; speaker := "Speaker 2"; text := "" |} ]%Q;
         speakerCount := 2;
         confidence := (1 # 2)%Q;
         debug := [("speech_segments_count", DebugInt 2);
                   ("embeddings_count", DebugInt 2);
                   ("processing_time", DebugStr "mock")] |}.
Proof. by vm_compute. Qed.

(** ** The temporary files *)

(** The downloaded file is on disk when [download_audio] returns. *)
Lemma download_audio_file (w : World) (url : string) (st s1 : State) audio_path :
  download_audio w url st = (inr audio_path, s1) ->
  is_Some (files s1 !! audio_path).
Proof.
  rewrite download_audio_eq.
  destruct (requests_get w url) as [response|]; [|done]. cbn zeta.
  destruct (stream_ok response); [|done].
  intros [= <- <-]. cbn [files]. rewrite lookup_insert_eq. by eexists.
Qed.

(** The converted file is on disk when [convert_to_wav] returns, and so is
    every file that was there before. *)
Lemma convert_to_wav_files (w : World) (input_path : string) (s1 s2 : State) wav_path :
  convert_to_wav w input_path s1 = (inr wav_path, s2) ->
  is_Some (files s2 !! wav_path) /\
  (forall path, is_Some (files s1 !! path) -> is_Some (files s2 !! path)).
Proof.
  rewrite convert_to_wav_eq. cbn zeta.
  destruct (files s1 !! input_path ≫= ffmpeg w) as [converted|]; [|done].
  intros [= <- <-]. cbn [files]. split.
  - rewrite lookup_insert_eq. by eexists.
  - intros path Hpath.
    destruct (decide (str_replace input_path ".wav" "_converted.wav" = path)) as [->|Hne].
    + rewrite lookup_insert_eq. by eexists.
    + by rewrite lookup_insert_ne.
Qed.

(** Whenever the handler stops after the conversion without reaching its
    clean-up block (no speech found, or a stage raising), both temporary
    files are still on disk. *)
Lemma temp_files_survive_early_exit (w : World) (request : DiarizationRequest)
    (st s1 s2 : State) audio_path wav_path :
  download_audio w (fileUrl request) st = (inr audio_path, s1) ->
  convert_to_wav w audio_path s1 = (inr wav_path, s2) ->
  let final := snd (diarize_audio w request st) in
  (fst (detect_speech_segments w wav_path s2) = inr [] \/
   (exists e, fst (diarize_audio w request st) = inl e)) ->
  is_Some (files final !! audio_path) /\ is_Some (files final !! wav_path).
Proof.
  intros Hdown Hconv final Hexit.
  pose proof (download_audio_file _ _ _ _ _ Hdown) as Haudio.
  destruct (convert_to_wav_files _ _ _ _ _ Hconv) as [Hwav Hkeep].
  apply Hkeep in Haudio.
  assert (Hfiles : files final = files s2); [|by rewrite Hfiles].
  subst final. revert Hexit.
  rewrite diarize_audio_eq, Hdown, Hconv, detect_speech_segments_eq.
  destruct (match files s2 !! wav_path with Some _ => _ | None => _ end)
    as [e|[|seg segs]]; cbn [fst snd]; [done..|].
  rewrite extract_embeddings_eq.
  destruct (match files (entered StDetect s2) !! wav_path with Some _ => _ | None => _ end)
    as [e|embeddings]; cbn [fst snd]; [done|].
  rewrite cluster_speakers_eq.
  destruct (if bool_decide _ then _ else _) as [e|labels]; cbn [fst snd]; [done|].
  rewrite calculate_confidence_eq. cbn [fst snd].
  intros [[=]|[e [=]]].
Qed.

(** C2, on the code: the handler leaves its temporary files behind.  For a
    recording without speech it returns the empty result with the downloaded
    file and the converted file both still on disk; when the voice-activity
    detector raises it fails with status 500 and both files still on disk.
    Only a run that reaches the end of the handler removes them. *)
Theorem temp_files_left_behind :
  let silent :=
    diarize_audio (studio true true true true) silence_request (initial_state ∅) in
  let failed :=
    diarize_audio (studio false true true true) gap_request (initial_state ∅) in
  let complete :=
    diarize_audio (studio true true true true) gap_request (initial_state ∅) in
  (fst silent = inr empty_response /\
   files (snd silent) !! "/tmp/tmpk3v9.wav" = Some (replicate 40 0) /\
   files (snd silent) !! "/tmp/tmpk3v9_converted.wav" = Some (replicate 40 0)) /\
  (fst failed = inl (HTTPException 500 "500: Speech detection failed") /\
   files (snd failed) !! "/tmp/tmpk3v9.wav" = Some (encode_frames one_frame_gap) /\
   files (snd failed) !! "/tmp/tmpk3v9_converted.wav" =
     Some (encode_frames one_frame_gap)) /\
  ((exists response, fst complete = inr response) /\
   files (snd complete) = ∅).
Proof.
  cbn zeta. split_and!; try (by vm_compute).
  eexists. by vm_compute.
Qed.

(** ** The theorems at concrete inputs *)

(** The scripted detector on the recording with the one-frame gap. *)
Lemma detect_gap_recording :
  detect_speech_segments studio_ok "/tmp/gap.wav" (initial_state gap_disk) =
  (inr gap_segments, entered StDetect (initial_state gap_disk)).
Proof. by vm_compute. Qed.

(** C6 at the recording with the one-frame gap. *)
Lemma segments_sorted_nonoverlapping_witness :
  detect_speech_segments studio_ok "/tmp/gap.wav" (initial_state gap_disk) =
    (inr gap_segments, entered StDetect (initial_state gap_disk)) /\
  StronglySorted before gap_segments.
Proof.
  split; [exact detect_gap_recording|].
  exact (proj2 segments_sorted_nonoverlapping _ _ _ _ _ detect_gap_recording).
Defined.

(** C7 at a run of eight speech frames, and at the recording with the
    one-frame gap. *)
Lemma segments_min_duration_witness :
  (8 <= 8)%nat /\
  segments_of (F:=Q) (replicate 2 false ++ replicate 8 true ++ replicate 3 false) = [] /\
  Forall long_enough gap_segments.
Proof.
  destruct segments_min_duration as (_ & Hdetect & Hshort).
  split_and!; [lia| |].
  - apply Hshort. lia.
  - exact (Hdetect _ _ _ _ _ detect_gap_recording).
Defined.

(** C5 at the ramp of 32160 samples.  In binary64 [2.01 * 16000] is just
    below 32160, so the first segment is cut before sample 32159, the second
    segment is that one sample, and the third, which is past the end, gets
    the zero vector. *)
Lemma extract_embeddings_one_per_segment_witness :
  fst (extract_embeddings (lab probe_encoder) "/tmp/ramp.wav" boundary_segments
         (initial_state ramp_disk)) =
    inr [ [32159; 0; 32158] ++ replicate 253 0;
          [1; 32159; 32159] ++ replicate 253 0;
          replicate 256 0 ]%Q /\
  (forall embeddings st',
     extract_embeddings (lab probe_encoder) "/tmp/ramp.wav" boundary_segments
       (initial_state ramp_disk) = (inr embeddings, st') ->
     length embeddings = 3%nat /\
     Forall (fun v => length v = 256%nat) embeddings).
Proof.
  destruct (extract_embeddings_one_per_segment (lab probe_encoder) "/tmp/ramp.wav"
              boundary_segments (initial_state ramp_disk)
              (ramp 32160) (map inject_Z (ramp 32160)) probe_encoder)
    as [Hshape _].
  - exact (lookup_singleton_eq (M:=gmap string) "/tmp/ramp.wav" (ramp 32160)).
  - reflexivity.
  - reflexivity.
  - intros x v Hv. apply (inj Some) in Hv. subst v. reflexivity.
  - split; [vm_compute; reflexivity|].
    intros embeddings st' Hrun.
    destruct (Hshape _ _ Hrun) as (Hlen & Hdim & _). exact (conj Hlen Hdim).
Defined.

(** C3 at three vectors with two distinct labels. *)
Lemma confidence_in_unit_interval_witness :
  exists c,
    calculate_confidence studio_ok three_embeddings [0; 1; 1] (initial_state ∅) =
      (inr c, entered StConfidence (initial_state ∅)) /\
    (0 <= c <= 1)%Q.
Proof.
  destruct (confidence_in_unit_interval studio_ok three_embeddings [0; 1; 1]
              (initial_state ∅)) as (c & Hrun & Hrange & _).
  - intros X l score Hscore. cbn in Hscore. apply (inj Some) in Hscore.
    subst score. unfold Qle. cbn. lia.
  - exists c. exact (conj Hrun Hrange).
Defined.

(** C4 at the silent recording. *)
Lemma no_speech_short_circuits_witness :
  exists st',
    diarize_audio studio_ok silence_request (initial_state ∅) =
      (inr empty_response, st') /\
    calls st' = [StDownload; StConvert; StDetect].
Proof.
  pose (s1 := snd (download_audio studio_ok (fileUrl silence_request) (initial_state ∅))).
  pose (s2 := snd (convert_to_wav studio_ok "/tmp/tmpk3v9.wav" s1)).
  destruct (proj2 no_speech_short_circuits studio_ok silence_request ∅
              "/tmp/tmpk3v9.wav" s1 "/tmp/tmpk3v9_converted.wav" s2
              (replicate 40 0) (flat_map tone (replicate 40 0)) (replicate 40 false))
    as (st' & Hrun & _ & _ & _ & Hcalls).
  - by vm_compute.
  - by vm_compute.
  - by vm_compute.
  - reflexivity.
  - by vm_compute.
  - apply Forall_replicate. reflexivity.
  - exists st'. exact (conj Hrun Hcalls).
Defined.

(** C9 at the recording with the one-frame gap, the clusterer raising. *)
Lemma stage_failures_abort_witness :
  fst (diarize_audio studio_no_clustering gap_request (initial_state ∅)) =
  inl (HTTPException 500 "500: Speaker clustering failed").
Proof.
  pose (w := studio_no_clustering).
  pose (s1 := snd (download_audio w (fileUrl gap_request) (initial_state ∅))).
  pose (s2 := snd (convert_to_wav w "/tmp/tmpk3v9.wav" s1)).
  pose (s3 := snd (detect_speech_segments w "/tmp/tmpk3v9_converted.wav" s2)).
  pose (embeddings := [replicate 256 (1 # 2); replicate 256 (1 # 2)]%Q).
  pose (s4 := snd (extract_embeddings w "/tmp/tmpk3v9_converted.wav" gap_segments s3)).
  destruct (stage_failures_abort_confidence_failure_swallowed w gap_request
              (initial_state ∅)) as (_ & _ & Hstages & _).
  destruct (Hstages "/tmp/tmpk3v9.wav" s1 "/tmp/tmpk3v9_converted.wav" s2)
    as [_ Hsegs]; [by vm_compute..|].
  destruct (Hsegs gap_segments s3) as [_ Hembed]; [by vm_compute|done|].
  destruct (Hembed embeddings s4) as [Hcluster _]; [by vm_compute|].
  change studio_no_clustering with w.
  rewrite (Hcluster (HTTPException 500 "Speaker clustering failed")
             (entered StCluster s4)); [reflexivity|by vm_compute].
Defined.

(** C10 at three vectors. *)
Lemma labels_align_with_segments_witness :
  cluster_speakers studio_ok three_embeddings (initial_state ∅) =
    (inr [0; 1; 0], entered StCluster (initial_state ∅)) /\
  length [0; 1; 0] = length three_embeddings.
Proof.
  assert (Hrun : cluster_speakers studio_ok three_embeddings (initial_state ∅) =
                 (inr [0; 1; 0], entered StCluster (initial_state ∅)))
    by (by vm_compute).
  split; [exact Hrun|].
  refine (proj1 (proj1 (labels_align_with_segments studio_ok _ _) _ _ _ _ Hrun)).
  - intros embeddings X HX. cbn in HX. apply (inj Some) in HX. by subst X.
  - intros X labels Hfit. cbn in Hfit. apply (inj Some) in Hfit. subst labels.
    apply length_imap.
Defined.

(** * Further properties of the worker *)

(** ** The segments are the long runs of speech frames *)

Lemma speech_frames_from_elem (is_speech : list bool) (i f : Z) :
  f ∈ speech_frames_from i is_speech <->
  i <= f /\ is_speech !! Z.to_nat (f - i) = Some true.
Proof.
  revert i. induction is_speech as [|b rest IH]; intros i; cbn [speech_frames_from].
  - split; [by intros ?%elem_of_nil|by intros [_ ?]].
  - assert (Hrest : f ∈ speech_frames_from (i + 1) rest <->
                    i < f /\ (b :: rest) !! Z.to_nat (f - i) = Some true).
    { rewrite IH. split.
      - intros [Hle Hlook]. split; [lia|].
        replace (Z.to_nat (f - i)) with (S (Z.to_nat (f - (i + 1)))) by lia. done.
      - intros [Hlt Hlook]. split; [lia|].
        replace (Z.to_nat (f - i)) with (S (Z.to_nat (f - (i + 1)))) in Hlook by lia.
        done. }
    destruct b.
    + rewrite elem_of_cons, Hrest. split.
      * intros [->|[Hlt Hlook]]; [|split; [lia|done]].
        split; [lia|]. by rewrite Z.sub_diag.
      * intros [Hle Hlook]. destruct (decide (f = i)) as [->|Hne]; [by left|].
        right. split; [lia|done].
    + rewrite Hrest. split.
      * intros [Hlt Hlook]. split; [lia|done].
      * intros [Hle Hlook]. split; [|done].
        destruct (decide (f = i)) as [->|Hne]; [|lia].
        by rewrite Z.sub_diag in Hlook.
Qed.

(** Two maximal runs that share a frame are the same run. *)
Lemma maximal_run_unique (frames : list Z) (s1 p1 s2 p2 f : Z) :
  maximal_run frames s1 p1 -> maximal_run frames s2 p2 ->
  s1 <= f <= p1 -> s2 <= f <= p2 -> s1 = s2 /\ p1 = p2.
Proof.
  intros (Hle1 & Hin1 & Hb1 & Ha1) (Hle2 & Hin2 & Hb2 & Ha2) Hf1 Hf2.
  split.
  - destruct (Z.lt_trichotomy s1 s2) as [Hlt|[Heq|Hgt]]; [|done|].
    + exfalso. apply Hb2, Hin1. lia.
    + exfalso. apply Hb1, Hin2. lia.
  - destruct (Z.lt_trichotomy p1 p2) as [Hlt|[Heq|Hgt]]; [|done|].
    + exfalso. apply Ha1, Hin2. lia.
    + exfalso. apply Ha2, Hin1. lia.
Qed.

(** Ending the candidate when no later speech frame is adjacent to it. *)
Lemma close_segment_runs (frames rest : list Z) (st : MergeState Q) (bound : Z) :
  runs_inv frames rest st ->
  (prev_frame st + 1) ∉ frames ->
  prev_frame st < bound ->
  (forall f, f ∈ frames -> f < bound -> f <= prev_frame st) ->
  forall seg,
    seg ∈ close_segment (segments st) (start_frame st) (prev_frame st) <->
    exists first last,
      maximal_run frames first last /\ 9 <= last + 1 - first /\
      last < bound /\ seg = segment_of_frames first last.
Proof.
  intros [Hsorted Hrest Hvisited Horder Hcand Hstart Hsegs] Hafter Hbound Hbelow seg.
  assert (Hrun : maximal_run frames (start_frame st) (prev_frame st)) by done.
  rewrite close_segment_frames. split.
  - intros Hin.
    assert (Hcases : seg ∈ segments st \/
              (9 <= prev_frame st + 1 - start_frame st /\
               seg = segment_of_frames (start_frame st) (prev_frame st))).
    { case_bool_decide; [|by left].
      apply elem_of_app in Hin as [Hin|Hin%list_elem_of_singleton]; [by left|by right]. }
    destruct Hcases as [Hold|[Hlong ->]].
    + apply Hsegs in Hold as (first & last & Hmax & Hlong & Hlt & ->).
      exists first, last. split_and!; [done..|lia|done].
    + exists (start_frame st), (prev_frame st). done.
  - intros (first & last & Hmax & Hlong & Hlt & ->).
    destruct (decide (last < start_frame st)) as [Hbefore|Hoverlap].
    + assert (segment_of_frames first last ∈ segments st) as Hold.
      { apply Hsegs. by exists first, last. }
      case_bool_decide; [|done]. apply elem_of_app. by left.
    + assert (Hlast : last <= prev_frame st).
      { apply Hbelow; [|done]. destruct Hmax as (? & Hin & _). apply Hin. lia. }
      destruct (maximal_run_unique frames first last (start_frame st) (prev_frame st) last)
        as [-> ->]; [done|done|destruct Hmax; lia|lia|].
      rewrite bool_decide_eq_true_2 by done.
      apply elem_of_app. right. by apply list_elem_of_singleton.
Qed.

Lemma merge_step_runs (frames rest : list Z) (st : MergeState Q) (frame : Z) :
  runs_inv frames (frame :: rest) st -> runs_inv frames rest (merge_step st frame).
Proof.
  intros Hinv. pose proof Hinv as [Hsorted Hrest Hvisited Horder Hcand Hstart Hsegs].
  apply StronglySorted_cons in Hsorted as [Hprev Hsorted].
  pose proof Hsorted as [Hlater _]%StronglySorted_cons.
  apply Forall_cons in Hprev as [Hlt Hprev].
  apply Forall_cons in Hrest as [Hframe Hrest].
  rewrite Forall_forall in Hprev, Hlater.
  unfold merge_step. destruct (frame - prev_frame st >? 1) eqn:Hgap.
  - assert (Hno : forall f, f ∈ frames -> f < frame -> f <= prev_frame st).
    { intros f Hf Hbelow. destruct (Hvisited f Hf) as [?|Hin]; [done|].
      apply elem_of_cons in Hin as [->|Hin]; [lia|]. specialize (Hlater f Hin). lia. }
    constructor; cbn [segments start_frame prev_frame]; [done|done|..].
    + intros f Hf. destruct (Hvisited f Hf) as [?|Hin]; [left; lia|].
      apply elem_of_cons in Hin as [->|Hin]; [left; lia|by right].
    + lia.
    + intros f Hf. by replace f with frame by lia.
    + intros Hin. specialize (Hno _ Hin). lia.
    + apply (close_segment_runs frames (frame :: rest)); [done| |lia|done].
      intros Hin. specialize (Hno _ Hin). lia.
  - constructor; cbn [segments start_frame prev_frame]; [done|done|..].
    + intros f Hf. destruct (Hvisited f Hf) as [?|Hin]; [left; lia|].
      apply elem_of_cons in Hin as [->|Hin]; [left; lia|by right].
    + lia.
    + intros f Hf. destruct (decide (f <= prev_frame st)); [apply Hcand; lia|].
      by replace f with frame by lia.
    + done.
    + done.
Qed.

Lemma fold_merge_runs (frames rest : list Z) (st : MergeState Q) :
  runs_inv frames rest st -> runs_inv frames [] (fold_left merge_step rest st).
Proof.
  revert st. induction rest as [|frame rest IH]; intros st Hinv; [done|].
  cbn [fold_left]. by apply IH, merge_step_runs.
Qed.

(** On an ascending list of speech frames the segmenter returns exactly the
    maximal runs of adjacent frames that are nine frames or longer. *)
Lemma merge_speech_frames_runs (frames : list Z) (seg : SpeechSegment Q) :
  StronglySorted Z.lt frames ->
  seg ∈ merge_speech_frames frames <->
  exists first last,
    maximal_run frames first last /\ 9 <= last + 1 - first /\
    seg = segment_of_frames first last.
Proof.
  intros Hsorted. destruct frames as [|first0 rest]; cbn [merge_speech_frames].
  - split; [by intros ?%elem_of_nil|].
    intros (first & last & (Hle & Hin & _) & _). exfalso.
    by apply (elem_of_nil first), Hin.
  - set (frames := first0 :: rest) in *.
    set (st0 := {| segments := []; start_frame := first0; prev_frame := first0 |}).
    pose proof Hsorted as [Hmin _]%StronglySorted_cons. rewrite Forall_forall in Hmin.
    assert (Hge : forall f, f ∈ frames -> first0 <= f).
    { intros f [->|Hf]%elem_of_cons; [lia|]. specialize (Hmin f Hf). lia. }
    assert (Hinv0 : runs_inv frames rest st0).
    { constructor; unfold st0; cbn [segments start_frame prev_frame].
      - done.
      - apply Forall_forall. intros f Hf. by apply list_elem_of_further.
      - intros f [->|Hf]%elem_of_cons; [left; lia|by right].
      - lia.
      - intros f Hf. replace f with first0 by lia. apply list_elem_of_here.
      - intros Hin. specialize (Hge _ Hin). lia.
      - intros seg'. split; [by intros ?%elem_of_nil|].
        intros (first & last & (Hle & Hin & _) & _ & Hlt & _). exfalso.
        assert (first0 <= last) by (apply Hge, Hin; lia). lia. }
    pose proof (fold_merge_runs _ _ _ Hinv0) as Hinv.
    set (st := fold_left merge_step rest st0) in *.
    pose proof Hinv as [_ _ Hvisited _ _ _ _].
    assert (Hall : forall f, f ∈ frames -> f <= prev_frame st).
    { intros f Hf. destruct (Hvisited f Hf) as [?|Hin]; [done|].
      by apply elem_of_nil in Hin. }
    rewrite (close_segment_runs frames [] st (prev_frame st + 1) Hinv);
      [|intros Hin; specialize (Hall _ Hin); lia|lia|by intros f Hf _; apply Hall].
    split.
    + intros (first & last & Hmax & Hlong & _ & ->). by exists first, last.
    + intros (first & last & Hmax & Hlong & ->). exists first, last.
      split_and!; [done..| |done].
      destruct Hmax as (Hle & Hin & _).
      assert (last <= prev_frame st) by (apply Hall, Hin; lia). lia.
Qed.

(** The indices [detect_speech_segments] collects are exactly the positions
    of the frames classified as speech. *)
Lemma speech_frames_of_elem (is_speech : list bool) (f : Z) :
  f ∈ speech_frames_of is_speech <-> speech_at is_speech f.
Proof.
  unfold speech_frames_of, speech_at. rewrite speech_frames_from_elem.
  by rewrite Z.sub_0_r.
Qed.

Lemma maximal_run_speech_run (is_speech : list bool) (first last : Z) :
  maximal_run (speech_frames_of is_speech) first last <->
  speech_run is_speech first last.
Proof.
  unfold maximal_run, speech_run. rewrite !speech_frames_of_elem.
  split; intros (Hle & Hin & Hb & Ha); split_and!; try done.
  - intros f Hf. by apply speech_frames_of_elem, Hin.
  - intros f Hf. by apply speech_frames_of_elem, Hin.
Qed.

Lemma segments_of_runs (is_speech : list bool) (seg : SpeechSegment Q) :
  seg ∈ segments_of is_speech <->
  exists first last,
    speech_run is_speech first last /\ 9 <= last + 1 - first /\
    seg = segment_of_frames first last.
Proof.
  unfold segments_of.
  rewrite merge_speech_frames_runs by apply speech_frames_from_sorted.
  split; intros (first & last & Hrun & Hlong & ->); exists first, last;
    (split_and!; [by apply maximal_run_speech_run|done|done]).
Qed.

Lemma segments_of_bounds (is_speech : list bool) :
  Forall (fun seg : SpeechSegment Q =>
            (0 <= seg_start seg)%Q /\
            (seg_end seg <= frame_time (Z.of_nat (length is_speech)))%Q)
         (segments_of is_speech).
Proof.
  apply Forall_forall. intros seg (first & last & Hrun & Hlong & ->)%segments_of_runs.
  destruct Hrun as (Hle & Hin & _).
  destruct (Hin first) as [Hfirst _]; [lia|].
  destruct (Hin last) as [_ Hlast]; [lia|].
  apply lookup_lt_Some in Hlast.
  cbn [segment_of_frames seg_start seg_end]. split.
  - eapply Qle_trans; [|apply (frame_time_le 0 first Hfirst)].
    rewrite frame_time_eq. unfold Qle. cbn. lia.
  - apply frame_time_le. lia.
Qed.

(** X1: the segments of a frame classification are exactly its runs of
    adjacent speech frames that cannot be extended and are nine frames
    (0.27 s) or longer, each from the start of its first frame to the end of
    its last; so a segment never spans a frame without speech, begins at 0 s
    or later and ends within the frames classified. *)
Theorem segments_are_long_speech_runs (is_speech : list bool) :
  (forall seg : SpeechSegment Q,
     seg ∈ segments_of is_speech <->
     exists first last,
       speech_run is_speech first last /\ 9 <= last + 1 - first /\
       seg = segment_of_frames first last) /\
  Forall (fun seg : SpeechSegment Q =>
            (0 <= seg_start seg)%Q /\
            (seg_end seg <= frame_time (Z.of_nat (length is_speech)))%Q)
         (segments_of is_speech).
Proof.
  split; [apply segments_of_runs|apply segments_of_bounds].
Qed.

(** ** The frames *)

Lemma frame_size_eq : frame_size = 480%nat.
Proof. reflexivity. Qed.

Lemma filter_all {A} (P : A -> Prop) `{forall x, Decision (P x)} (l : list A) :
  Forall P l -> filter P l = l.
Proof.
  induction 1 as [|x l Hx _ IH]; [done|]. by rewrite filter_cons_True, IH.
Qed.

Lemma filter_none {A} (P : A -> Prop) `{forall x, Decision (P x)} (l : list A) :
  Forall (fun x => ~ P x) l -> filter P l = [].
Proof.
  induction 1 as [|x l Hx _ IH]; [done|]. by rewrite filter_cons_False.
Qed.

(** The slice that begins at sample [k * frame_size] is a full frame exactly
    when [k] is below the number of whole frames. *)
Lemma frame_slice_full (y : list Z) (k : nat) :
  length (take frame_size (drop (k * frame_size) y)) = frame_size <->
  (k < length y / frame_size)%nat.
Proof.
  rewrite length_take, length_drop, frame_size_eq.
  pose proof (Nat.div_mod_eq (length y) 480). 
  pose proof (Nat.mod_upper_bound (length y) 480). nia.
Qed.

Lemma frames_of_eq (y : list Z) :
  frames_of y =
  map (fun k => take frame_size (drop (k * frame_size) y))
      (seq 0 (length y / frame_size)).
Proof.
  unfold frames_of. rewrite map_map.
  set (whole := (length y / frame_size)%nat).
  set (slices := ((length y + frame_size - 1) / frame_size)%nat).
  assert (Hle : (whole <= slices)%nat).
  { subst whole slices. rewrite frame_size_eq.
    apply Nat.Div0.div_le_mono. lia. }
  replace slices with (whole + (slices - whole))%nat by lia.
  rewrite seq_app, map_app, filter_app, filter_all, filter_none.
  - by rewrite app_nil_r.
  - apply Forall_forall. intros frame (k & -> & Hk)%list_elem_of_fmap.
    apply elem_of_seq in Hk. rewrite frame_slice_full. fold whole. lia.
  - apply Forall_forall. intros frame (k & -> & Hk)%list_elem_of_fmap.
    apply elem_of_seq in Hk. apply frame_slice_full. fold whole. lia.
Qed.

Lemma concat_frames (y : list Z) (n : nat) :
  concat (map (fun k => take frame_size (drop (k * frame_size) y)) (seq 0 n)) =
  take (n * frame_size) y.
Proof.
  induction n as [|n IH]; [done|].
  rewrite seq_S, map_app, concat_app, IH. cbn [map concat].
  rewrite app_nil_r, take_take_drop. f_equal. lia.
Qed.

(** X2: the frames [detect_speech_segments] hands to the detector are the
    consecutive blocks of 480 samples of the recording, in order: there are
    [len / 480] of them, each has 480 samples, frame [k] holds the samples
    from [480 * k] on, together they are the recording without its last
    [len mod 480] samples, and a recording shorter than one frame gives no
    frame. *)
Theorem frames_of_partition (y : list Z) :
  length (frames_of y) = (length y / 480)%nat /\
  Forall (fun frame => length frame = 480%nat) (frames_of y) /\
  (forall k, (k < length y / 480)%nat ->
     frames_of y !! k = Some (take 480 (drop (480 * k) y))) /\
  concat (frames_of y) = take (length y - length y mod 480) y /\
  ((length y < 480)%nat -> frames_of y = []).
Proof.
  rewrite frames_of_eq, frame_size_eq.
  pose proof (Nat.div_mod_eq (length y) 480) as Hdiv.
  split_and!.
  - by rewrite length_map, length_seq.
  - apply Forall_forall. intros frame (k & -> & Hk)%list_elem_of_fmap.
    apply elem_of_seq in Hk. rewrite <- frame_size_eq. apply frame_slice_full.
    rewrite frame_size_eq. lia.
  - intros k Hk. rewrite list_lookup_fmap, lookup_seq_lt by done. cbn.
    do 3 f_equal. lia.
  - pose proof (concat_frames y (length y / 480)) as Hcat.
    rewrite frame_size_eq in Hcat. rewrite Hcat. f_equal. lia.
  - intros Hshort. by rewrite Nat.div_small.
Qed.

(** ** What each stage does to the state *)

Lemma detect_speech_segments_state (w : World) path st r st' :
  detect_speech_segments w path st = (r, st') -> st' = entered StDetect st.
Proof. rewrite detect_speech_segments_eq. by intros [= _ <-]. Qed.

Lemma extract_embeddings_state (w : World) path segs st r st' :
  extract_embeddings w path segs st = (r, st') -> st' = entered StEmbed st.
Proof. rewrite extract_embeddings_eq. by intros [= _ <-]. Qed.

Lemma cluster_speakers_state (w : World) embeddings st r st' :
  cluster_speakers w embeddings st = (r, st') -> st' = entered StCluster st.
Proof. rewrite cluster_speakers_eq. by intros [= _ <-]. Qed.

Lemma calculate_confidence_state (w : World) embeddings labels st r st' :
  calculate_confidence w embeddings labels st = (r, st') ->
  st' = entered StConfidence st.
Proof. rewrite calculate_confidence_eq. by intros [= _ <-]. Qed.

Lemma download_audio_state (w : World) url st r st' :
  download_audio w url st = (r, st') ->
  calls st' = calls st ++ [StDownload] /\
  (forall path, path <> temp_name w (files st) -> files st' !! path = files st !! path) /\
  (forall audio_path, r = inr audio_path -> audio_path = temp_name w (files st)).
Proof.
  rewrite download_audio_eq.
  destruct (requests_get w url) as [response|]; cbn zeta.
  - assert (Hother : forall path, path <> temp_name w (files st) ->
              <[temp_name w (files st) := concat (chunks response)]>
                (<[temp_name w (files st) := []]> (files st)) !! path = files st !! path).
    { intros path Hne. by rewrite !lookup_insert_ne. }
    destruct (stream_ok response); intros [= <- <-]; cbn [files calls];
      (split_and!; [done|done|]); by intros ? [= <-].
  - intros [= <- <-]. by split_and!.
Qed.

Lemma convert_to_wav_state (w : World) input_path st r st' :
  convert_to_wav w input_path st = (r, st') ->
  calls st' = calls st ++ [StConvert] /\
  (forall path, path <> converted_path input_path ->
     files st' !! path = files st !! path) /\
  (forall wav_path, r = inr wav_path -> wav_path = converted_path input_path).
Proof.
  rewrite convert_to_wav_eq. cbn zeta. fold (converted_path input_path).
  destruct (files st !! input_path ≫= ffmpeg w) as [converted|];
    intros [= <- <-]; cbn [files calls].
  - split_and!; [done| |by intros ? [= <-]].
    intros path Hne. by rewrite lookup_insert_ne.
  - by split_and!.
Qed.

(** The clean-up block of the handler: with the downloaded file on disk both
    files are gone afterwards; files at other paths are never touched; the
    record of calls is unchanged. *)
Lemma cleaned_up_state (audio_path wav_path : string) (st : State) :
  calls (cleaned_up audio_path wav_path st) = calls st /\
  (forall path, path <> audio_path -> path <> wav_path ->
     files (cleaned_up audio_path wav_path st) !! path = files st !! path) /\
  (is_Some (files st !! audio_path) ->
     files (cleaned_up audio_path wav_path st) !! audio_path = None /\
     files (cleaned_up audio_path wav_path st) !! wav_path = None) /\
  (files st !! audio_path = None ->
     files (cleaned_up audio_path wav_path st) = files st).
Proof.
  unfold cleaned_up, unlink. unfold_monad.
  destruct (files st !! audio_path) as [content|] eqn:Haudio; cbn [files calls snd].
  - destruct (delete audio_path (files st) !! wav_path) as [converted|] eqn:Hwav;
      cbn [files calls snd].
    + assert (wav_path <> audio_path) as Hne.
      { intros ->. by rewrite lookup_delete_eq in Hwav. }
      split_and!; [done| | |done].
      * intros path Ha Hw. by rewrite !lookup_delete_ne.
      * intros _. by rewrite lookup_delete_ne, !lookup_delete_eq.
    + split_and!; [done| | |done].
      * intros path Ha Hw. by rewrite lookup_delete_ne.
      * intros _. by rewrite lookup_delete_eq.
  - split_and!; [done|done| |done]. by intros [? [=]].
Qed.

(** ** The handler: stages entered and files touched *)

(** The state the handler ends in, outcome by outcome: the number of worker
    functions entered, and the files as the last stage left them. *)
Lemma diarize_audio_run (w : World) (request : DiarizationRequest) (st : State) :
  let r := diarize_audio w request st in
  let audio_path := temp_name w (files st) in
  let wav_path := converted_path audio_path in
  exists n : nat,
    (1 <= n <= 6)%nat /\
    calls (snd r) = calls st ++ take n pipeline_order /\
    (forall path, path <> audio_path -> path <> wav_path ->
       files (snd r) !! path = files st !! path) /\
    (n = 6%nat <-> exists response, fst r = inr response /\ diarizedSegments response <> []) /\
    (n = 6%nat -> files (snd r) !! audio_path = None /\ files (snd r) !! wav_path = None).
Proof.
  cbn zeta. rewrite diarize_audio_eq.
  destruct (download_audio _ _ _) as [[e|audio_path] s1] eqn:Hdown.
  { apply download_audio_state in Hdown as (Hc1 & Hf1 & _). exists 1%nat. cbn [fst snd].
    split_and!; [lia|lia|done|by intros; apply Hf1| |lia].
    split; [lia|]. by intros (? & [=] & _). }
  pose proof (download_audio_file _ _ _ _ _ Hdown) as Haudio.
  apply download_audio_state in Hdown as (Hc1 & Hf1 & Hpath).
  rewrite <- (Hpath audio_path eq_refl) in *. clear Hpath.
  destruct (convert_to_wav _ _ _) as [[e|wav_path] s2] eqn:Hconv.
  { apply convert_to_wav_state in Hconv as (Hc2 & Hf2 & _). exists 2%nat. cbn [fst snd].
    split_and!; [lia|lia|by rewrite Hc2, Hc1, <- app_assoc| | |lia].
    - intros path Ha Hw. by rewrite Hf2, Hf1.
    - split; [lia|]. by intros (? & [=] & _). }
  pose proof (convert_to_wav_files _ _ _ _ _ Hconv) as [_ Hkeep].
  apply Hkeep in Haudio. clear Hkeep.
  apply convert_to_wav_state in Hconv as (Hc2 & Hf2 & Hpath).
  rewrite <- (Hpath wav_path eq_refl) in *. clear Hpath.
  assert (Hf12 : forall path, path <> audio_path -> path <> wav_path ->
            files s2 !! path = files st !! path).
  { intros path Ha Hw. by rewrite Hf2, Hf1. }
  assert (Hc12 : calls s2 = calls st ++ [StDownload; StConvert]).
  { by rewrite Hc2, Hc1, <- app_assoc. }
  clear Hc1 Hc2 Hf1 Hf2.
  destruct (detect_speech_segments _ _ _) as [[e|[|seg segs]] s3] eqn:Hdet;
    apply detect_speech_segments_state in Hdet as ->.
  { exists 3%nat. cbn [fst snd entered files calls].
    split_and!; [lia|lia|by rewrite Hc12, <- app_assoc|done| |lia].
    split; [lia|]. by intros (? & [=] & _). }
  { exists 3%nat. cbn [fst snd entered files calls].
    split_and!; [lia|lia|by rewrite Hc12, <- app_assoc|done| |lia].
    split; [lia|]. by intros (? & [= <-] & ?). }
  destruct (extract_embeddings _ _ _ _) as [[e|embeddings] s4] eqn:Hemb;
    apply extract_embeddings_state in Hemb as ->.
  { exists 4%nat. cbn [fst snd entered files calls].
    split_and!; [lia|lia|by rewrite Hc12, <- !app_assoc|done| |lia].
    split; [lia|]. by intros (? & [=] & _). }
  destruct (cluster_speakers _ _ _) as [[e|speaker_labels] s5] eqn:Hclu;
    apply cluster_speakers_state in Hclu as ->.
  { exists 5%nat. cbn [fst snd entered files calls].
    split_and!; [lia|lia|by rewrite Hc12, <- !app_assoc|done| |lia].
    split; [lia|]. by intros (? & [=] & _). }
  rewrite calculate_confidence_eq.
  exists 6%nat. cbn [fst snd].
  destruct (cleaned_up_state audio_path wav_path
              (entered StConfidence (entered StCluster (entered StEmbed
                 (entered StDetect s2))))) as (Hcc & Hcf & Hgone & _).
  cbn [entered files calls] in *.
  split_and!; [lia|lia| | | |].
  - by rewrite Hcc, Hc12, <- !app_assoc.
  - intros path Ha Hw. by rewrite Hcf, Hf12.
  - split; [|done]. intros _. eexists. split; [done|]. by cbn.
  - intros _. by apply Hgone.
Qed.


(** X4: whatever the outcome, the handler leaves every file on disk as it
    was, except at the two paths it uses itself: the temporary name it is
    given and the converted path derived from it. *)
Theorem handler_touches_only_temp_files (w : World) (request : DiarizationRequest)
    (st : State) (path : string) :
  path <> temp_name w (files st) ->
  path <> converted_path (temp_name w (files st)) ->
  files (snd (diarize_audio w request st)) !! path = files st !! path.
Proof.
  intros Haudio Hwav.
  destruct (diarize_audio_run w request st) as (n & _ & _ & Hframe & _).
  by apply Hframe.
Qed.

(** X5: when the handler returns a response with segments, neither the
    downloaded file nor the converted file is on disk any more. *)
Theorem successful_run_removes_temp_files (w : World) (request : DiarizationRequest)
    (st st' : State) (response : DiarizationResponse) :
  diarize_audio w request st = (inr response, st') ->
  diarizedSegments response <> [] ->
  files st' !! temp_name w (files st) = None /\
  files st' !! converted_path (temp_name w (files st)) = None.
Proof.
  intros Hrun Hsegments.
  destruct (diarize_audio_run w request st) as (n & _ & _ & _ & Hfull & Hgone).
  rewrite Hrun in Hfull, Hgone. cbn [fst snd] in Hfull, Hgone.
  apply Hgone, Hfull. by exists response.
Qed.

(** X4 at a disk that holds a file of its own. *)
Lemma handler_touches_only_temp_files_witness :
  files (snd (diarize_audio studio_ok gap_request (initial_state notes_disk)))
    !! "/srv/notes.txt" = Some [7; 7].
Proof.
  rewrite (handler_touches_only_temp_files studio_ok gap_request
             (initial_state notes_disk) "/srv/notes.txt"); [reflexivity|done|done].
Defined.

(** X5 at the recording with the one-frame gap. *)
Lemma successful_run_removes_temp_files_witness :
  files (snd (diarize_audio studio_ok gap_request (initial_state notes_disk)))
    !! "/tmp/tmpk3v9.wav" = None /\
  files (snd (diarize_audio studio_ok gap_request (initial_state notes_disk)))
    !! "/tmp/tmpk3v9_converted.wav" = None.
Proof.
  pose (r := diarize_audio studio_ok gap_request (initial_state notes_disk)).
  refine (successful_run_removes_temp_files studio_ok gap_request
            (initial_state notes_disk) (snd r)
            (full_response gap_segments
               [replicate 256 (1 # 2)%Q; replicate 256 (1 # 2)%Q] [0; 1] (1 # 2)%Q)
            _ _).
  - by vm_compute.
  - by vm_compute.
Defined.

(** ** Failures *)


(** ** Download and conversion *)

(** X7: [download_audio] writes to the temporary name only.  When the
    request fails nothing is written; otherwise the temporary file holds the
    chunks received, and the function returns its path if the stream ended
    normally and raises if it broke, in which case the file with the chunks
    received so far stays on disk. *)
Theorem download_audio_outcomes (w : World) (url : string) (st : State) :
  let temp_path := temp_name w (files st) in
  let r := download_audio w url st in
  (forall path, path <> temp_path -> files (snd r) !! path = files st !! path) /\
  match requests_get w url with
  | None =>
      fst r = inl (HTTPException 400 "Failed to download audio file") /\
      files (snd r) = files st
  | Some response =>
      files (snd r) !! temp_path = Some (concat (chunks response)) /\
      fst r = if stream_ok response
              then inr temp_path
              else inl (HTTPException 400 "Failed to download audio file")
  end.
Proof.
  cbn zeta. split.
  - intros path Hne.
    destruct (download_audio w url st) as [r st'] eqn:Hrun.
    apply download_audio_state in Hrun as (_ & Hframe & _). by apply Hframe.
  - rewrite download_audio_eq.
    destruct (requests_get w url) as [response|]; cbn zeta; [|done].
    destruct (stream_ok response); cbn [fst snd files];
      by rewrite lookup_insert_eq.
Qed.

(** X8: [convert_to_wav] raises its exception when the input file is missing
    or ffmpeg fails; otherwise it returns the converted path, which then
    holds the output of ffmpeg, and every file at another path, the input
    file included whenever the two paths differ, is as it was. *)
Theorem convert_to_wav_outcomes (w : World) (input_path : string) (st : State) :
  let output_path := converted_path input_path in
  let r := convert_to_wav w input_path st in
  match files st !! input_path ≫= ffmpeg w with
  | None => fst r = inl (HTTPException 500 "Audio conversion failed")
  | Some converted =>
      fst r = inr output_path /\
      files (snd r) !! output_path = Some converted /\
      (forall path, path <> output_path -> files (snd r) !! path = files st !! path)
  end.
Proof.
  cbn zeta. rewrite convert_to_wav_eq. cbn zeta. fold (converted_path input_path).
  destruct (files st !! input_path ≫= ffmpeg w) as [converted|]; cbn [fst snd files].
  - split_and!; [done|by rewrite lookup_insert_eq|].
    intros path Hne. by rewrite lookup_insert_ne.
  - done.
Qed.

Lemma replace_wav_no_dot (new stem rest : string) :
  no_dot stem = true ->
  replace_from ".wav" new 0 (stem +:+ rest) = stem +:+ replace_from ".wav" new 0 rest.
Proof.
  induction stem as [|c stem IH]; [done|].
  cbn [no_dot]. intros [Hc Hstem]%andb_prop. apply negb_true_iff in Hc.
  apply Ascii.eqb_neq in Hc.
  change (String c stem +:+ rest) with (String c (stem +:+ rest)).
  change (String c stem +:+ replace_from ".wav" new 0 rest)
    with (String c (stem +:+ replace_from ".wav" new 0 rest)).
  cbn [replace_from String.prefix].
  destruct (Ascii.ascii_dec "."%char c) as [Heq|_]; [congruence|].
  by rewrite IH.
Qed.

Lemma string_app_inv_head (stem s1 s2 : string) :
  stem +:+ s1 = stem +:+ s2 -> s1 = s2.
Proof.
  induction stem as [|c stem IH]; [done|].
  change (String c stem +:+ s1) with (String c (stem +:+ s1)).
  change (String c stem +:+ s2) with (String c (stem +:+ s2)).
  intros [= Heq]. by apply IH.
Qed.

(** X9: for a temporary name [stem.wav] whose stem has no dot, the converted
    path is [stem_converted.wav]: a different path, so that the conversion
    never writes over the downloaded file. *)
Theorem converted_path_of_temp_name (stem : string) :
  no_dot stem = true ->
  converted_path (stem +:+ ".wav") = stem +:+ "_converted.wav" /\
  converted_path (stem +:+ ".wav") <> stem +:+ ".wav".
Proof.
  intros Hstem. unfold converted_path, str_replace.
  rewrite replace_wav_no_dot by done. split; [done|].
  change (replace_from ".wav" "_converted.wav" 0 ".wav") with "_converted.wav".
  intros Heq. by apply string_app_inv_head in Heq.
Qed.

(** X9 at the name the scripted world hands out. *)
Lemma converted_path_of_temp_name_witness :
  converted_path "/tmp/tmpk3v9.wav" = "/tmp/tmpk3v9_converted.wav" /\
  converted_path "/tmp/tmpk3v9.wav" <> "/tmp/tmpk3v9.wav".
Proof.
  apply (converted_path_of_temp_name "/tmp/tmpk3v9"). reflexivity.
Defined.

(** ** Embeddings, labels and responses *)

(** X10: [extract_embeddings] is all or nothing: with the file read and the
    encoder made, it returns exactly when every segment has a slice, that
    is, two finite sample indices, and the encoder succeeds on every slice
    that is not empty; a segment without a slice, or one non-empty slice on
    which the encoder raises, makes the stage raise its exception, with no
    embedding returned for the segments before the failing one. *)
Theorem extract_embeddings_all_or_nothing (w : World) (audio_path : string)
    (segs : list (SpeechSegment Q)) (st : State)
    (content : list Z) (wav : list Q) (embed_utterance : list Q -> option (list Q)) :
  files st !! audio_path = Some content ->
  preprocess_wav w content = Some wav ->
  voice_encoder w = Some embed_utterance ->
  ((exists embeddings,
      fst (extract_embeddings w audio_path segs st) = inr embeddings) <->
   Forall (fun segment =>
             exists segment_wav,
               segment_samples wav segment = Some segment_wav /\
               (segment_wav = [] \/ is_Some (embed_utterance segment_wav))) segs) /\
  (Exists (fun segment =>
             segment_samples wav segment = None \/
             exists segment_wav,
               segment_samples wav segment = Some segment_wav /\
               segment_wav <> [] /\ embed_utterance segment_wav = None) segs ->
   fst (extract_embeddings w audio_path segs st) =
     inl (HTTPException 500 "Embedding extraction failed")).
Proof.
  intros Hfile Hwav Henc.
  rewrite extract_embeddings_eq, Hfile, Hwav, Henc. cbn [fst].
  assert (Hseg : forall segment,
            is_Some (embed_segment embed_utterance wav segment) <->
            exists segment_wav,
              segment_samples wav segment = Some segment_wav /\
              (segment_wav = [] \/ is_Some (embed_utterance segment_wav))).
  { intros segment. rewrite embed_segment_eq.
    destruct (segment_samples wav segment) as [[|x rest]|] eqn:Hs.
    - split; [|by eexists]. intros _. exists []. split; [done|by left].
    - split.
      + intros Hsome. exists (x :: rest). split; [done|by right].
      + intros (segment_wav & Heq & Hcases). apply (inj Some) in Heq. subst segment_wav.
        by destruct Hcases as [?|?].
    - split; [by intros [? ?]|by intros (? & ? & _)]. }
  split.
  - destruct (mapM _ segs) as [embeddings|] eqn:Hmap.
    + split; [|by eexists]. intros _.
      assert (is_Some (mapM (embed_segment embed_utterance wav) segs)) as Hsome by done.
      apply mapM_is_Some in Hsome. eapply Forall_impl; [exact Hsome|].
      intros segment. apply Hseg.
    + split; [by intros [? [=]]|]. intros Hall. exfalso.
      assert (is_Some (mapM (embed_segment embed_utterance wav) segs)) as [? Hsome].
      { apply mapM_is_Some. eapply Forall_impl; [exact Hall|].
        intros segment. apply Hseg. }
      congruence.
  - intros Hbad.
    destruct (mapM _ segs) as [embeddings|] eqn:Hmap; [|done]. exfalso.
    assert (is_Some (mapM (embed_segment embed_utterance wav) segs)) as Hsome by done.
    apply mapM_is_Some in Hsome. rewrite Forall_forall in Hsome.
    apply Exists_exists in Hbad as (segment & Hin & Hcases).
    apply Hsome, Hseg in Hin as (segment_wav & Hs & Hok).
    destruct Hcases as [Hnone|(segment_wav' & Hs' & Hne & Hnone)]; [congruence|].
    assert (segment_wav' = segment_wav) as -> by congruence.
    destruct Hok as [?|[? ?]]; congruence.
Qed.

(** X10 at the ramp of 32160 samples: the slice of the second segment is the
    one sample 32159, so an encoder that raises on a slice of one sample
    makes the stage raise, and the probing encoder makes it return. *)
Lemma extract_embeddings_all_or_nothing_witness :
  segment_samples (map inject_Z (ramp 32160))
    {| seg_start := 201 # 100; seg_end := 57 # 25 |}%Q = Some [32159%Q] /\
  fst (extract_embeddings (lab fussy_encoder) "/tmp/ramp.wav" boundary_segments
         (initial_state ramp_disk)) =
    inl (HTTPException 500 "Embedding extraction failed").
Proof.
  assert (Hslice : segment_samples (map inject_Z (ramp 32160))
                     {| seg_start := 201 # 100; seg_end := 57 # 25 |}%Q = Some [32159%Q])
    by (vm_compute; reflexivity).
  split; [exact Hslice|].
  destruct (extract_embeddings_all_or_nothing (lab fussy_encoder) "/tmp/ramp.wav"
              boundary_segments (initial_state ramp_disk)
              (ramp 32160) (map inject_Z (ramp 32160)) fussy_encoder) as [_ Hraises].
  - exact (lookup_singleton_eq (M:=gmap string) "/tmp/ramp.wav" (ramp 32160)).
  - reflexivity.
  - reflexivity.
  - apply Hraises. apply Exists_cons_tl, Exists_cons_hd. right.
    exists [32159%Q]. split_and!; [exact Hslice|discriminate|reflexivity].
Defined.

(** X11: a recording with exactly one segment is answered without the
    clusterer or the silhouette score being consulted: whatever numpy and
    scikit-learn would do, the response has that one segment, spoken by
    "Speaker 1", speaker count 1 and confidence 0.0. *)
Theorem single_segment_is_one_speaker (w : World) (request : DiarizationRequest)
    (st s1 s2 s3 s4 : State) (audio_path wav_path : string)
    (segment : SpeechSegment Q) (embeddings : list (list Q)) :
  download_audio w (fileUrl request) st = (inr audio_path, s1) ->
  convert_to_wav w audio_path s1 = (inr wav_path, s2) ->
  detect_speech_segments w wav_path s2 = (inr [segment], s3) ->
  extract_embeddings w wav_path [segment] s3 = (inr embeddings, s4) ->
  exists response,
    fst (diarize_audio w request st) = inr response /\
    diarizedSegments response =
      [ {| start := seg_start segment; end_ := seg_end segment;
           speaker := "Speaker 1"; text := "" |} ] /\
    speakerCount response = 1 /\
    confidence response = 0%Q.
Proof.
  intros Hdown Hconv Hdet Hemb.
  assert (Hlen : length embeddings = 1%nat).
  { revert Hemb. rewrite extract_embeddings_eq. intros [= Hemb _].
    repeat case_match; simplify_eq.
    symmetry. by eapply (length_mapM _ [segment]). }
  rewrite diarize_audio_eq, Hdown, Hconv, Hdet, Hemb.
  rewrite cluster_speakers_eq, Hlen, bool_decide_eq_true_2 by lia.
  rewrite calculate_confidence_eq, Hlen, bool_decide_eq_true_2 by lia.
  eexists. split; [done|]. by split_and!.
Qed.

(** X11 at the world in which numpy and scikit-learn always raise. *)
Lemma single_segment_is_one_speaker_witness :
  exists response,
    fst (diarize_audio booth booth_request (initial_state ∅)) = inr response /\
    diarizedSegments response =
      [ {| start := 0; end_ := 9 # 25; speaker := "Speaker 1"; text := "" |} ]%Q /\
    speakerCount response = 1 /\
    confidence response = 0%Q.
Proof.
  pose (s1 := snd (download_audio booth (fileUrl booth_request) (initial_state ∅))).
  pose (s2 := snd (convert_to_wav booth "/tmp/tmpa7x2.wav" s1)).
  pose (s3 := snd (detect_speech_segments booth "/tmp/tmpa7x2_converted.wav" s2)).
  pose (segment := {| seg_start := 0; seg_end := 9 # 25 |}%Q).
  pose (s4 := snd (extract_embeddings booth "/tmp/tmpa7x2_converted.wav" [segment] s3)).
  destruct (single_segment_is_one_speaker booth booth_request (initial_state ∅)
              s1 s2 s3 s4 "/tmp/tmpa7x2.wav" "/tmp/tmpa7x2_converted.wav" segment
              [replicate 256 (1 # 2)%Q])
    as (response & Hrun & Hsegs & Hcount & Hconf).
  - vm_compute. reflexivity.
  - vm_compute. reflexivity.
  - vm_compute. reflexivity.
  - vm_compute. reflexivity.
  - exists response. exact (conj Hrun (conj Hsegs (conj Hcount Hconf))).
Defined.

Lemma count_distinct_two (labels : list Z) :
  Forall (fun l => l = 0 \/ l = 1) labels -> (count_distinct labels <= 2)%nat.
Proof.
  intros Hall. unfold count_distinct.
  change 2%nat with (length [0; 1]). apply submseteq_length, NoDup_submseteq.
  - apply NoDup_remove_dups.
  - intros l Hl. apply (proj1 (elem_of_remove_dups _ _)) in Hl.
    rewrite Forall_forall in Hall.
    destruct (Hall l Hl) as [->| ->]; set_solver.
Qed.

Lemma cluster_speakers_labels (w : World) embeddings st labels st' :
  (forall X ls, fit_predict w X = Some ls -> Forall (fun l => l = 0 \/ l = 1) ls) ->
  cluster_speakers w embeddings st = (inr labels, st') ->
  Forall (fun l => l = 0 \/ l = 1) labels.
Proof.
  intros Hfit. rewrite cluster_speakers_eq. case_bool_decide.
  - intros [= <- _]. apply Forall_replicate. by left.
  - destruct (np_array w embeddings) as [X|]; [|done].
    destruct (fit_predict w X) as [ls|] eqn:Hls; [|done].
    intros [= <- _]. by eapply Hfit.
Qed.

(** X12: given that the clusterer only hands out the labels 0 and 1, every
    response names at most two speakers: the speaker of each segment is
    "Speaker 1" or "Speaker 2", and the speaker count is between 0 and 2. *)
Theorem at_most_two_speakers (w : World) (request : DiarizationRequest)
    (st st' : State) (response : DiarizationResponse) :
  (forall X labels, fit_predict w X = Some labels ->
     Forall (fun l => l = 0 \/ l = 1) labels) ->
  diarize_audio w request st = (inr response, st') ->
  0 <= speakerCount response <= 2 /\
  Forall (fun d => speaker d = "Speaker 1" \/ speaker d = "Speaker 2")
         (diarizedSegments response).
Proof.
  intros Hfit Hrun.
  apply diarize_audio_inr in Hrun
    as (audio_path & s1 & wav_path & s2 & segs & s3 & _ & _ & _ & Hcases).
  destruct Hcases as [(_ & -> & _)|(_ & Hfull)].
  { cbn. split; [lia|constructor]. }
  destruct Hfull as (embeddings & s4 & labels & s5 & conf & s6 & _ & Hclu & _ & -> & _).
  pose proof (cluster_speakers_labels _ _ _ _ _ Hfit Hclu) as Hlabels.
  cbn [full_response speakerCount diarizedSegments]. split.
  - pose proof (count_distinct_two labels Hlabels). lia.
  - apply Forall_lookup_2. intros i d. rewrite list_lookup_imap.
    destruct (segs !! i) as [segment|]; [|done]. intros [= <-].
    unfold diarized_segment. cbn [speaker].
    assert (Hlabel : (if bool_decide (i < length labels)%nat
                      then default 0 (labels !! i) else 0) = 0 \/
                     (if bool_decide (i < length labels)%nat
                      then default 0 (labels !! i) else 0) = 1).
    { case_bool_decide; [|by left].
      destruct (labels !! i) as [l|] eqn:Hl; [|by left].
      rewrite Forall_lookup in Hlabels. exact (Hlabels i l Hl). }
    destruct Hlabel as [-> | ->]; [by left|by right].
Qed.

(** X12 at the scripted world, whose clusterer alternates between 0 and 1. *)
Lemma at_most_two_speakers_witness :
  0 <= speakerCount (full_response gap_segments
         [replicate 256 (1 # 2)%Q; replicate 256 (1 # 2)%Q] [0; 1] (1 # 2)%Q) <= 2.
Proof.
  pose (r := diarize_audio studio_ok gap_request (initial_state ∅)).
  refine (proj1 (at_most_two_speakers studio_ok gap_request (initial_state ∅)
                   (snd r) _ _ _)).
  - intros X labels Hfit. cbn in Hfit. apply (inj Some) in Hfit. subst labels.
    apply Forall_lookup_2. intros i l. rewrite list_lookup_imap.
    destruct (X !! i); [|done]. intros [= <-].
    pose proof (Nat.mod_upper_bound i 2). lia.
  - by vm_compute.
Defined.




(** ** Edges of the stages *)

(** X14: the clean-up block never raises.  With the downloaded file on disk
    it removes both files; with the downloaded file already gone its first
    [unlink] raises, the second is skipped, and the disk, the converted file
    included, is left as it was. *)
Theorem cleanup_block_outcomes (audio_path wav_path : string) (st : State) :
  let r := try_except (unlink audio_path ;; unlink wav_path) (fun _ => mret ()) st in
  fst r = inr () /\
  (is_Some (files st !! audio_path) ->
     files (snd r) !! audio_path = None /\ files (snd r) !! wav_path = None) /\
  (files st !! audio_path = None -> files (snd r) = files st).
Proof.
  cbn zeta. rewrite cleanup_returns. cbn [fst snd].
  destruct (cleaned_up_state audio_path wav_path st) as (_ & _ & Hgone & Hkept).
  by split_and!.
Qed.

Lemma py_slice_past_end {A} (l : list A) (a b : Z) :
  Z.of_nat (length l) <= a -> py_slice l a b = [].
Proof.
  intros Ha. unfold py_slice, slice_index. cbn zeta.
  replace (a <? 0) with false by lia.
  set (stop := if b <? 0 then _ else _).
  replace (Z.to_nat (stop - _)) with 0%nat; [done|].
  subst stop. destruct (Z.ltb_spec b 0); lia.
Qed.

(** X15: a segment whose first sample index [int(start * 16000)], computed
    in binary64, is at or past the end of the audio as [preprocess_wav]
    returned it has an empty slice: its embedding is the zero vector of
    dimension 256 and the encoder is not called for it. *)
Theorem segment_past_audio_gets_zero_vector
    (embed_utterance : list Q -> option (list Q)) (wav : list Q)
    (segment : SpeechSegment Q) (start_sample end_sample : Z) :
  sample_index (seg_start segment) = Some start_sample ->
  sample_index (seg_end segment) = Some end_sample ->
  Z.of_nat (length wav) <= start_sample ->
  segment_samples wav segment = Some [] /\
  embed_segment embed_utterance wav segment = Some (replicate 256 0%Q).
Proof.
  intros Hstart Hend Hpast.
  assert (Hempty : segment_samples wav segment = Some []).
  { unfold segment_samples. rewrite Hstart, Hend. cbn [mbind option_bind].
    by rewrite py_slice_past_end. }
  split; [done|]. by rewrite embed_segment_eq, Hempty.
Qed.

(** X15 at the segment from 2.01 s to 2.28 s and an encoder that would
    raise: its first sample is sample 32159, so a ramp of 32159 samples
    gives the zero vector, and with one sample more the encoder is called. *)
Lemma segment_past_audio_gets_zero_vector_witness :
  embed_segment (fun _ => None) (map inject_Z (ramp 32159))
    {| seg_start := 201 # 100; seg_end := 57 # 25 |}%Q = Some (replicate 256 0%Q) /\
  embed_segment (fun _ => None) (map inject_Z (ramp 32160))
    {| seg_start := 201 # 100; seg_end := 57 # 25 |}%Q = None.
Proof.
  split; [|vm_compute; reflexivity].
  apply (segment_past_audio_gets_zero_vector (fun _ => None)
           (map inject_Z (ramp 32159))
           {| seg_start := 201 # 100; seg_end := 57 # 25 |}%Q 32159 36480).
  - vm_compute. reflexivity.
  - vm_compute. reflexivity.
  - vm_compute. discriminate.
Defined.

(** X16: a recording shorter than one frame of 480 samples has no frame, so
    the detector is never asked and cannot fail: [detect_speech_segments]
    returns the empty list. *)
Theorem short_recording_has_no_segments (w : World) (audio_path : string)
    (st : State) (content : list Z) (y : list Q) :
  files st !! audio_path = Some content ->
  librosa_load w content = Some y ->
  (length y < 480)%nat ->
  detect_speech_segments w audio_path st = (inr [], entered StDetect st).
Proof.
  intros Hfile Hload Hshort.
  rewrite detect_speech_segments_eq, Hfile, Hload.
  rewrite frames_of_eq, length_map, frame_size_eq, Nat.div_small by done.
  done.
Qed.

(** X16 at a recording without samples and a detector that raises. *)
Lemma short_recording_has_no_segments_witness :
  detect_speech_segments studio_no_vad "/tmp/blank.wav" (initial_state blank_disk) =
  (inr [], entered StDetect (initial_state blank_disk)).
Proof.
  apply (short_recording_has_no_segments studio_no_vad "/tmp/blank.wav"
           (initial_state blank_disk) [] []).
  - by vm_compute.
  - reflexivity.
  - cbn. lia.
Defined.

(** X17: [detect_speech_segments] is all or nothing: with the file read and
    decoded it returns exactly when the detector answers for every frame,
    and then returns the segments of those answers; one frame on which the
    detector raises makes the whole stage raise. *)
Theorem detect_speech_segments_all_or_nothing (w : World) (audio_path : string)
    (st : State) (content : list Z) (y : list Q) :
  files st !! audio_path = Some content ->
  librosa_load w content = Some y ->
  let frames := frames_of (map (to_int16 w) y) in
  ((exists segs, fst (detect_speech_segments w audio_path st) = inr segs) <->
   Forall (fun frame => is_Some (vad_is_speech w frame)) frames) /\
  (forall is_speech,
     Forall2 (fun frame b => vad_is_speech w frame = Some b) frames is_speech ->
     fst (detect_speech_segments w audio_path st) = inr (segments_of is_speech)) /\
  (Exists (fun frame => vad_is_speech w frame = None) frames ->
   fst (detect_speech_segments w audio_path st) =
     inl (HTTPException 500 "Speech detection failed")).
Proof.
  intros Hfile Hload frames.
  rewrite detect_speech_segments_eq, Hfile, Hload. fold frames. cbn [fst].
  split_and!.
  - rewrite <- (mapM_is_Some (vad_is_speech w) frames).
    destruct (mapM (vad_is_speech w) frames) as [is_speech|].
    + split; [by eexists|]. intros _. by eexists.
    + split; [by intros [? [=]]|by intros [? [=]]].
  - intros is_speech Hall. apply mapM_Some in Hall. by rewrite Hall.
  - intros Hbad. apply mapM_None in Hbad. by rewrite Hbad.
Qed.

(** X17 at the recording with the one-frame gap. *)
Lemma detect_speech_segments_all_or_nothing_witness :
  fst (detect_speech_segments studio_no_vad "/tmp/gap.wav" (initial_state gap_disk)) =
  inl (HTTPException 500 "Speech detection failed").
Proof.
  destruct (detect_speech_segments_all_or_nothing studio_no_vad "/tmp/gap.wav"
              (initial_state gap_disk) (encode_frames one_frame_gap)
              (flat_map tone (encode_frames one_frame_gap)))
    as (_ & _ & Hfail).
  - by vm_compute.
  - reflexivity.
  - apply Hfail. apply Exists_exists.
    exists (replicate 480 16383). split; [|reflexivity].
    apply list_elem_of_lookup. exists 0%nat. by vm_compute.
Defined.

Lemma cluster_speakers_length (w : World) embeddings st labels st' :
  (forall e X, np_array w e = Some X -> length X = length e) ->
  (forall X ls, fit_predict w X = Some ls -> length ls = length X) ->
  cluster_speakers w embeddings st = (inr labels, st') ->
  length labels = length embeddings.
Proof.
  intros Hrows Hfit. rewrite cluster_speakers_eq. case_bool_decide.
  - intros [= <- _]. by rewrite length_replicate.
  - destruct (np_array w embeddings) as [X|] eqn:HX; [|done].
    destruct (fit_predict w X) as [ls|] eqn:Hls; [|done].
    intros [= <- _]. rewrite (Hfit _ _ Hls). by apply Hrows.
Qed.

Lemma count_distinct_bounds (labels : list Z) :
  (count_distinct labels <= length labels)%nat /\
  (labels <> [] -> 1 <= count_distinct labels)%nat.
Proof.
  unfold count_distinct. split.
  - apply submseteq_length, NoDup_submseteq; [apply NoDup_remove_dups|].
    intros l Hl. by apply (proj1 (elem_of_remove_dups _ _)) in Hl.
  - destruct labels as [|l labels]; [done|]. intros _.
    assert (l ∈ remove_dups (l :: labels)) as Hin.
    { apply elem_of_remove_dups, list_elem_of_here. }
    destruct (remove_dups (l :: labels)); [by apply elem_of_nil in Hin|cbn; lia].
Qed.

(** X18: given that [np.array] keeps one row per embedding and that
    [fit_predict] gives one label per row, the speaker count of a response
    is never more than its number of segments, and is at least 1 as soon as
    there is a segment. *)
Theorem speaker_count_bounds (w : World) (request : DiarizationRequest)
    (st st' : State) (response : DiarizationResponse) :
  (forall embeddings X, np_array w embeddings = Some X -> length X = length embeddings) ->
  (forall X labels, fit_predict w X = Some labels -> length labels = length X) ->
  diarize_audio w request st = (inr response, st') ->
  speakerCount response <= Z.of_nat (length (diarizedSegments response)) /\
  (diarizedSegments response <> [] -> 1 <= speakerCount response).
Proof.
  intros Hrows Hfit Hrun.
  apply diarize_audio_inr in Hrun
    as (audio_path & s1 & wav_path & s2 & segs & s3 & _ & _ & _ & Hcases).
  destruct Hcases as [(_ & -> & _)|(Hne & Hfull)]; [done|].
  destruct Hfull as (embeddings & s4 & labels & s5 & conf & s6 & Hemb & Hclu & _ & -> & _).
  assert (Hlen1 : length segs = length embeddings).
  { revert Hemb. rewrite extract_embeddings_eq. intros [= Hemb _].
    repeat case_match; simplify_eq. by eapply length_mapM. }
  pose proof (cluster_speakers_length _ _ _ _ _ Hrows Hfit Hclu) as Hlen2.
  destruct (count_distinct_bounds labels) as [Hle Hge].
  cbn [full_response speakerCount diarizedSegments]. rewrite length_imap. split; [lia|].
  intros _. assert (labels <> []) as Hlabels.
  { intros ->. destruct segs; [done|]. cbn in *. lia. }
  specialize (Hge Hlabels). lia.
Qed.

(** X18 at the recording with the one-frame gap. *)
Lemma speaker_count_bounds_witness :
  speakerCount (full_response gap_segments
     [replicate 256 (1 # 2)%Q; replicate 256 (1 # 2)%Q] [0; 1] (1 # 2)%Q) <= 2.
Proof.
  pose (r := diarize_audio studio_ok gap_request (initial_state ∅)).
  refine (proj1 (speaker_count_bounds studio_ok gap_request (initial_state ∅)
                   (snd r) _ _ _ _)).
  - intros embeddings X HX. cbn in HX. apply (inj Some) in HX. by subst X.
  - intros X labels Hfit. cbn in Hfit. apply (inj Some) in Hfit. subst labels.
    apply length_imap.
  - by vm_compute.
Defined.

(** ** Float to integer *)

Lemma In_count_from (first : Z) (n : nat) (k : Z) :
  first <= k < first + Z.of_nat n -> In k (count_from first n).
Proof.
  revert first. induction n as [|n IH]; intros first Hk; [lia|].
  cbn [count_from]. destruct (decide (k = first)) as [->|Hne]; [by left|].
  right. apply IH. lia.
Qed.

(** The rounding of the model is the rounding of [SpecFloat], in float32 and
    in float64, at every fraction of the grid. *)
Lemma fl_agrees_with_SpecFloat :
  forallb (fun x => same_number (fl32 x) (SF_value (SF_of_Q 24 128 x)) &&
                    same_number (fl64 x) (SF_value (SF_of_Q 53 1024 x)))
          rounding_grid = true.
Proof. vm_compute. reflexivity. Qed.

(** At the beginning of every frame of the first five minutes of a
    recording, the sample index of the model is the one the machine
    computes in binary64. *)
Lemma sample_index_agrees_with_binary64 (f : Z) :
  0 <= f < 10000 ->
  sample_index (frame_time f) =
  binary64_sample_index (true_div (F:=float) (f * frame_duration) 1000).
Proof.
  intros Hf.
  assert (Hall : forallb (fun f => bool_decide
                   (sample_index (frame_time f) =
                    binary64_sample_index (true_div (F:=float) (f * frame_duration) 1000)))
                   (count_from 0 (Z.to_nat 10000)) = true) by (vm_compute; reflexivity).
  rewrite forallb_forall in Hall.
  eapply bool_decide_eq_true_1, Hall, In_count_from. lia.
Qed.

(** The rounded quotient is the quotient or the integer after it. *)
Lemma round_half_even_bounds (n d : Z) :
  0 <= n -> 0 < d ->
  0 <= round_half_even n d /\ d * round_half_even n d <= n + d.
Proof.
  intros Hn Hd. unfold round_half_even.
  pose proof (Z_div_mod n d ltac:(lia)) as Hdiv.
  destruct (Z.div_eucl n d) as [m r]. destruct Hdiv as [-> Hr].
  assert (0 <= m) by nia.
  destruct (2 * r ?= d); [destruct (Z.even m)|..]; nia.
Qed.

(** A number below [2 ^ k] in magnitude, with [k + 1] below the exponent of
    the infinity, rounds to a float, and that is at most [2 ^ (k + 1)]. *)
Lemma fl_finite (prec emax k : Z) (x : Q) :
  0 < prec -> 0 <= k -> k + 1 < emax ->
  Z.abs (Qnum x) < 2 ^ k * Z.pos (Qden x) ->
  exists y, fl prec emax x = Some y /\
            Z.abs (Qnum y) <= 2 ^ (k + 1) * Z.pos (Qden y).
Proof.
  intros Hprec Hk Hemax Hx. unfold fl.
  set (n := Z.abs (Qnum x)) in *. set (d := Z.pos (Qden x)) in *.
  assert (Hd : 0 < d) by (subst d; lia).
  assert (HK : 0 < 2 ^ k) by (apply Z.pow_pos_nonneg; lia).
  assert (HK1 : 2 ^ (k + 1) = 2 * 2 ^ k) by (rewrite Z.pow_add_r, Z.pow_1_r by lia; lia).
  destruct (Z.eqb_spec n 0) as [Hn0|Hn0].
  { exists 0%Q. split; [done|]. cbn. lia. }
  assert (Hn : 0 < n) by (subst n; lia).
  set (e0 := Z.log2 n - Z.log2 d).
  assert (He0 : e0 <= k).
  { subst e0. assert (Z.log2 n <= Z.log2 (d * 2 ^ k)) as Hle by (apply Z.log2_le_mono; lia).
    rewrite Z.log2_mul_pow2 in Hle by lia. lia. }
  destruct (scaled n d e0) as [n0 d0].
  set (e := if d0 <=? n0 then e0 else e0 - 1).
  assert (He : e <= k) by (subst e; destruct (d0 <=? n0); lia).
  set (last := Z.max (e - prec + 1) (3 - emax - prec)).
  assert (Hlast : last <= k) by lia.
  unfold scaled. destruct (Z.leb_spec 0 last) as [Hpos|Hneg].
  - rewrite !Z.shiftl_mul_pow2 by lia.
    set (P := 2 ^ last).
    assert (HP : 0 < P) by (apply Z.pow_pos_nonneg; lia).
    assert (HPK : P <= 2 ^ k) by (apply Z.pow_le_mono_r; lia).
    destruct (round_half_even_bounds n (d * P)) as [Hm0 Hm1]; [lia|nia|].
    set (m0 := round_half_even n (d * P)) in *.
    set (m := if Qnum x <? 0 then - m0 else m0).
    assert (Hm : Z.abs m = m0) by (subst m; destruct (Qnum x <? 0); lia).
    rewrite Hm.
    assert (Hbound : m0 * P < 2 * 2 ^ k).
    { apply (Z.mul_lt_mono_pos_l d); [done|]. nia. }
    assert (Hmax : 2 ^ (k + 1) < 2 ^ emax) by (apply Z.pow_lt_mono_r; lia).
    destruct (Z.leb_spec (1 * 2 ^ emax) (m0 * P)) as [?|_]; [lia|].
    eexists. split; [done|]. cbn [inject_Z Qnum Qden]. rewrite Z.abs_mul, Hm. lia.
  - rewrite !Z.shiftl_mul_pow2 by lia.
    set (P := 2 ^ (- last)).
    assert (HP : 0 < P) by (apply Z.pow_pos_nonneg; lia).
    destruct (round_half_even_bounds (n * P) d) as [Hm0 Hm1]; [nia|lia|].
    set (m0 := round_half_even (n * P) d) in *.
    set (m := if Qnum x <? 0 then - m0 else m0).
    assert (Hm : Z.abs m = m0) by (subst m; destruct (Qnum x <? 0); lia).
    eexists. split; [done|]. cbn [Qnum Qden]. rewrite Hm, Z2Pos.id by lia.
    apply (Z.mul_le_mono_pos_l _ _ d); [done|]. nia.
Qed.

(** [int(t * 16000)] does not raise on a time of less than [2 ^ 1000]
    seconds. *)
Lemma sample_index_defined (t : Q) :
  (- inject_Z (2 ^ 1000) < t < inject_Z (2 ^ 1000))%Q -> is_Some (sample_index t).
Proof.
  pose proof (fl_finite 53 1024 1000 t ltac:(done) ltac:(done) ltac:(done)) as Hfirst.
  pose proof (fun x => fl_finite 53 1024 1015 x ltac:(done) ltac:(done) ltac:(done))
    as Hsecond.
  assert (Hpow : 2 ^ 1015 = 2 ^ (1000 + 1) * 16384).
  { change 16384 with (2 ^ 14). rewrite <- Z.pow_add_r by lia. reflexivity. }
  assert (Hpos : 0 < 2 ^ (1000 + 1)) by (by apply Z.pow_pos_nonneg).
  revert Hfirst Hsecond Hpow Hpos.
  generalize (2 ^ 1000) (2 ^ (1000 + 1)) (2 ^ 1015) (2 ^ (1015 + 1)).
  intros K K1 K15 K16 Hfirst Hsecond Hpow Hpos [Hlo Hhi].
  destruct Hfirst as (t64 & Ht64 & Hb1).
  { revert Hlo Hhi. unfold Qlt, Qopp, inject_Z. cbn [Qnum Qden]. lia. }
  destruct (Hsecond (t64 * inject_Z 16000)%Q) as (product & Hp & _).
  { unfold Qmult, inject_Z. cbn [Qnum Qden]. rewrite Pos.mul_1_r, Z.abs_mul.
    change (Z.abs 16000) with 16000. nia. }
  unfold sample_index, fl64. rewrite Ht64. cbn [mbind option_bind]. rewrite Hp.
  by eexists.
Qed.

(** The product is rounded before it is truncated: frame 67 begins at
    sample 32159, not at sample [67 * 480 = 32160]. *)
Lemma sample_index_of_frame_67 :
  sample_index (frame_time 67) = Some 32159 /\
  py_int (frame_time 67 * inject_Z 16000) = 32160.
Proof. split; vm_compute; reflexivity. Qed.

(** In float32 the product [32769 / 65536 * 32767] is rounded up to 16384
    before it is truncated. *)
Lemma to_int16_rounds_the_product (w : World) :
  to_int16 w (32769 # 65536) = 16384 /\
  py_int ((32769 # 65536) * inject_Z 32767) = 16383.
Proof. split; vm_compute; reflexivity. Qed.

(** What [astype] does outside the range of 16 bits is not known, but it is
    a 16-bit number. *)
Lemma to_int16_is_int16 (w : World) (y : Q) : -32768 <= to_int16 w y <= 32767.
Proof.
  unfold to_int16, int16.
  destruct (scaled_sample y) as [product|].
  - cbn zeta. case_bool_decide; [done|].
    pose proof (Z.mod_pos_bound (astype_int16_overflow w (Some product) + 32768) 65536).
    lia.
  - pose proof (Z.mod_pos_bound (astype_int16_overflow w None + 32768) 65536). lia.
Qed.

(** X19: a sample of a 16-bit recording is converted back to 16 bits
    without leaving the range: the float32 sample [k / 32768], for a 16-bit
    value [k], becomes [k * 32767 / 32768] truncated toward zero, with the
    product rounded to float32 first and whatever [astype] does on
    overflow, and that lies between -32767 and 32767. *)
Theorem to_int16_in_range (w : World) (k : Z) :
  -32768 <= k <= 32767 ->
  to_int16 w (k # 32768) = Z.quot (k * 32767) 32768 /\
  -32767 <= to_int16 w (k # 32768) <= 32767.
Proof.
  intros Hk.
  assert (Hall : forallb pcm16_exact pcm16 = true) by (vm_compute; reflexivity).
  rewrite forallb_forall in Hall.
  assert (Hexact : pcm16_exact k = true).
  { apply Hall, In_count_from. lia. }
  unfold pcm16_exact in Hexact. unfold to_int16.
  destruct (scaled_sample (k # 32768)) as [product|]; [|done].
  apply bool_decide_eq_true in Hexact. cbn zeta. rewrite Hexact.
  assert (Hv : -32767 <= (k * 32767) ÷ 32768 <= 32767).
  { destruct (Z.le_gt_cases 0 k) as [Hpos|Hneg].
    - split.
      + pose proof (Z.quot_pos (k * 32767) 32768). lia.
      + apply Z.quot_le_upper_bound; lia.
    - assert (Hopp : 0 <= (- (k * 32767)) ÷ 32768 <= 32767).
      { split; [apply Z.quot_pos; lia|apply Z.quot_le_upper_bound; lia]. }
      rewrite Z.quot_opp_l in Hopp by lia. lia. }
  rewrite bool_decide_eq_true_2 by lia. lia.
Qed.

(** X19 at half the full amplitude. *)
Lemma to_int16_in_range_witness :
  to_int16 studio_ok (16384 # 32768) = 16383 /\
  -32767 <= to_int16 studio_ok (16384 # 32768) <= 32767.
Proof.
  destruct (to_int16_in_range studio_ok 16384) as [Heq Hrange]; [lia|].
  split; [|exact Hrange]. rewrite Heq. reflexivity.
Defined.
